(** * LDAP distinguished names: the parser of [vendor/github.com/go-ldap/ldap/dn.go]

    A shallow embedding of [ParseDN] and of the three types it builds,
    followed by the properties of the parser.

    Go strings are byte sequences; they are modelled by [string], whose
    characters ([ascii]) are the 256 byte values.  Indices and lengths are
    [nat]; the result of [strings.IndexAny], which is [-1] when nothing is
    found, is a [Z]. *)

From Stdlib Require Import String Ascii List Bool Arith ZArith Lia.
Import ListNotations.
Local Open Scope string_scope.
Local Open Scope nat_scope.

(** ** Go string primitives *)

(** [s[lo:hi]] *)
Definition slice (s : string) (lo hi : nat) : string := substring lo (hi - lo) s.

(** [s[lo:]] *)
Definition sliceFrom (s : string) (lo : nat) : string :=
  substring lo (String.length s - lo) s.

(** Whether the byte [c] occurs in [chars]. *)
Fixpoint containsByte (chars : string) (c : ascii) : bool :=
  match chars with
  | EmptyString => false
  | String d chars' => Ascii.eqb c d || containsByte chars' c
  end.

Fixpoint indexAnyFrom (chars s : string) (k : Z) : Z :=
  match s with
  | EmptyString => (-1)%Z
  | String c s' => if containsByte chars c then k else indexAnyFrom chars s' (k + 1)%Z
  end.

(** [strings.IndexAny(s, chars)] for [chars] made of ASCII bytes: the index
    of the first byte of [s] that occurs in [chars], or [-1]. *)
Definition IndexAny (s chars : string) : Z := indexAnyFrom chars s 0%Z.

(** [buffer.WriteByte(c)] and [buffer.WriteString(s)] on the contents of a
    [bytes.Buffer]. *)
Definition WriteByte (buffer : string) (c : ascii) : string := buffer ++ String c EmptyString.
Definition WriteString (buffer s : string) : string := buffer ++ s.

(** ** [encoding/hex]

    The two functions of Go's standard library that the parser calls.
    [Decode] fails with [ErrLength] on a source of odd length and with
    [InvalidByteError] on the first byte that is not a hexadecimal digit;
    otherwise every two digits give one byte.  The length is tested first,
    as in the Go releases up to 1.9; later releases look for a byte that is
    no digit before they report the length, which changes the error named
    on a text of odd length with such a byte and nothing else.  The parser
    only looks at whether they fail, and passes the error on inside its
    own. *)

Inductive HexError : Type :=
| ErrLength
| InvalidByteError (b : ascii).

Definition fromHexChar (c : ascii) : option nat :=
  let n := nat_of_ascii c in
  if (48 <=? n) && (n <=? 57) then Some (n - 48)
  else if (97 <=? n) && (n <=? 102) then Some (n - 97 + 10)
  else if (65 <=? n) && (n <=? 70) then Some (n - 65 + 10)
  else None.

Fixpoint decodePairs (src : string) : HexError + string :=
  match src with
  | String p (String q src') =>
      match fromHexChar p with
      | None => inl (InvalidByteError p)
      | Some a =>
          match fromHexChar q with
          | None => inl (InvalidByteError q)
          | Some b =>
              match decodePairs src' with
              | inl e => inl e
              | inr dst => inr (String (ascii_of_nat (16 * a + b)) dst)
              end
          end
      end
  | _ => inr EmptyString
  end.

Definition Decode (src : string) : HexError + string :=
  if Nat.odd (String.length src) then inl ErrLength else decodePairs src.

Definition DecodeString (s : string) : HexError + string := Decode s.

(** ** The data model *)

Record AttributeTypeAndValue : Type := {
  Type' : string;
  Value : string
}.

Record RelativeDN : Type := {
  Attributes : list AttributeTypeAndValue
}.

Record DN : Type := {
  RDNs : list RelativeDN
}.

(** ** What a call of [ParseDN] ends in *)

(** The errors [ParseDN] builds, one constructor per message. *)
Inductive ParseError : Type :=
| ErrCorruptedEscape                  (* "Got corrupted escaped character" *)
| ErrDecodeEscaped (e : HexError)     (* "Failed to decode escaped character: %s" *)
| ErrExpectedOneByte (n : nat)        (* "Expected 1 byte when un-escaping, got %d" *)
| ErrDecodeBER (e : HexError)         (* "Failed to decode BER encoding: %s" *)
| ErrIncomplete.                      (* "DN ended with incomplete type, value pair" *)

(** Run-time panics of the Go program. *)
Inductive PanicKind : Type :=
| NilDereference       (* a field of a nil pointer is read *)
| SliceOutOfRange.     (* slice bounds out of range *)

(** [Ok dn] is [return dn, nil]; [Error e] is [return nil, e]. *)
Inductive result : Type :=
| Ok (dn : DN)
| Error (e : ParseError)
| Panic (p : PanicKind).

(** ** The BER decoder

    [ber.DecodePacket] (package [gopkg.in/asn1-ber.v1]) is not part of the
    sources; the parser is parameterised by it.  At its call site it gives
    back a single pointer and no error value: [None] is the nil pointer, the
    decoder's answer to bytes it rejects, and [Data] holds the contents of
    the buffer [packet.Data]. *)

Record Packet : Type := {
  Data : string
}.

Definition BERDecoder : Type := string -> option Packet.

(** ** The local variables of [ParseDN] *)

Record locals : Type := {
  dn : DN;
  rdn : RelativeDN;
  buffer : string;
  attribute : AttributeTypeAndValue;
  escaping : bool;
  unescapedTrailingSpaces : nat;
  i : nat
}.

Definition newAttribute : AttributeTypeAndValue := {| Type' := ""; Value := "" |}.
Definition newRelativeDN : RelativeDN := {| Attributes := [] |}.

Definition init : locals := {|
  dn := {| RDNs := [] |};
  rdn := newRelativeDN;
  buffer := "";
  attribute := newAttribute;
  escaping := false;
  unescapedTrailingSpaces := 0;
  i := 0
|}.

Definition set_dn (st : locals) (d : DN) : locals :=
  {| dn := d; rdn := rdn st; buffer := buffer st; attribute := attribute st;
     escaping := escaping st; unescapedTrailingSpaces := unescapedTrailingSpaces st;
     i := i st |}.

Definition set_rdn (st : locals) (r : RelativeDN) : locals :=
  {| dn := dn st; rdn := r; buffer := buffer st; attribute := attribute st;
     escaping := escaping st; unescapedTrailingSpaces := unescapedTrailingSpaces st;
     i := i st |}.

Definition set_buffer (st : locals) (b : string) : locals :=
  {| dn := dn st; rdn := rdn st; buffer := b; attribute := attribute st;
     escaping := escaping st; unescapedTrailingSpaces := unescapedTrailingSpaces st;
     i := i st |}.

Definition set_attribute (st : locals) (a : AttributeTypeAndValue) : locals :=
  {| dn := dn st; rdn := rdn st; buffer := buffer st; attribute := a;
     escaping := escaping st; unescapedTrailingSpaces := unescapedTrailingSpaces st;
     i := i st |}.

Definition set_escaping (st : locals) (e : bool) : locals :=
  {| dn := dn st; rdn := rdn st; buffer := buffer st; attribute := attribute st;
     escaping := e; unescapedTrailingSpaces := unescapedTrailingSpaces st;
     i := i st |}.

Definition set_unescapedTrailingSpaces (st : locals) (n : nat) : locals :=
  {| dn := dn st; rdn := rdn st; buffer := buffer st; attribute := attribute st;
     escaping := escaping st; unescapedTrailingSpaces := n;
     i := i st |}.

Definition set_i (st : locals) (n : nat) : locals :=
  {| dn := dn st; rdn := rdn st; buffer := buffer st; attribute := attribute st;
     escaping := escaping st; unescapedTrailingSpaces := unescapedTrailingSpaces st;
     i := n |}.

(** The closure [stringFromBuffer]: the buffer without its last
    [unescapedTrailingSpaces] bytes; buffer and counter are reset.  [None]
    is the panic of the slice expression when the counter exceeds the
    length. *)
Definition stringFromBuffer (st : locals) : option (string * locals) :=
  let s := buffer st in
  if unescapedTrailingSpaces st <=? String.length s then
    Some (slice s 0 (String.length s - unescapedTrailingSpaces st),
          set_unescapedTrailingSpaces (set_buffer st "") 0)
  else None.

(** [dst[0]] once [Decode] has written the bytes [decoded] into
    [dst := []byte{0}]. *)
Definition dst0 (decoded : string) : ascii :=
  match decoded with
  | String b _ => b
  | EmptyString => Ascii.zero
  end.

(** The double quote, byte 34. *)
Definition DQUOTE : ascii := ascii_of_nat 34.

(** The bytes of the [case] list of the escape branch: space, double quote,
    [#], [+], [,], [;], [<], [=], [>] and the backslash. *)
Definition isSpecial (char : ascii) : bool :=
  existsb (Ascii.eqb char) [" "; DQUOTE; "#"; "+"; ","; ";"; "<"; "="; ">"; "\"]%char.

(** ** One iteration of the loop *)

(** What the loop body does: it falls through to [i++] (also on
    [continue]) with new locals, or it returns from [ParseDN]. *)
Inductive control : Type :=
| Next (st : locals)
| Return (r : result).

Section Parser.

Variable DecodePacket : BERDecoder.
Variable str : string.

Definition byteAt (k : nat) : ascii :=
  match String.get k str with
  | Some c => c
  | None => Ascii.zero
  end.

(** The text [data] that the branch of [=#] decodes, [i] being the index
    after [=#]: up to the first [,] or [+] when [strings.IndexAny] finds one
    at an index above 0, the whole rest of the string otherwise. *)
Definition hexSpan (i : nat) : string :=
  let index := IndexAny (sliceFrom str i) ",+" in
  if (0 <? index)%Z then slice str i (i + Z.to_nat index) else sliceFrom str i.

(** The branch [if escaping]. *)
Definition escaped (char : ascii) (st : locals) : control :=
  let st := set_escaping (set_unescapedTrailingSpaces st 0) false in
  if isSpecial char then Next (set_buffer st (WriteByte (buffer st) char))
  else if String.length str =? i st + 1 then Return (Error ErrCorruptedEscape)
  else
    match Decode (slice str (i st) (i st + 2)) with
    | inl err => Return (Error (ErrDecodeEscaped err))
    | inr decoded =>
        if negb (String.length decoded =? 1) then
          Return (Error (ErrExpectedOneByte (String.length decoded)))
        else
          Next (set_i (set_buffer st (WriteByte (buffer st) (dst0 decoded))) (i st + 1))
    end.

(** The branch [char == '=']. *)
Definition equals (st : locals) : control :=
  match stringFromBuffer st with
  | None => Return (Panic SliceOutOfRange)
  | Some (s, st) =>
      let st := set_attribute st {| Type' := s; Value := Value (attribute st) |} in
      if (i st + 1 <? String.length str) && Ascii.eqb (byteAt (i st + 1)) "#" then
        let st := set_i st (i st + 2) in
        let data := hexSpan (i st) in
        match DecodeString data with
        | inl err => Return (Error (ErrDecodeBER err))
        | inr rawBER =>
            match DecodePacket rawBER with
            | None => Return (Panic NilDereference)
            | Some packet =>
                let st := set_buffer st (WriteString (buffer st) (Data packet)) in
                Next (set_i st (i st + String.length data - 1))
            end
        end
      else Next st
  end.

(** The branch [char == ',' || char == '+']. *)
Definition delimiter (char : ascii) (st : locals) : control :=
  match stringFromBuffer st with
  | None => Return (Panic SliceOutOfRange)
  | Some (s, st) =>
      let st := set_attribute st {| Type' := Type' (attribute st); Value := s |} in
      let st := set_rdn st {| Attributes := Attributes (rdn st) ++ [attribute st] |} in
      let st := set_attribute st newAttribute in
      if Ascii.eqb char "," then
        let st := set_dn st {| RDNs := RDNs (dn st) ++ [rdn st] |} in
        Next (set_rdn st newRelativeDN)
      else Next st
  end.

(** The last branch: an ordinary byte. *)
Definition ordinary (char : ascii) (st : locals) : control :=
  let st :=
    if Ascii.eqb char " " then
      set_unescapedTrailingSpaces st (unescapedTrailingSpaces st + 1)
    else set_unescapedTrailingSpaces st 0 in
  Next (set_buffer st (WriteByte (buffer st) char)).

(** The body of the [for] loop at [i st < len(str)]. *)
Definition body (st : locals) : control :=
  let char := byteAt (i st) in
  if escaping st then escaped char st
  else if Ascii.eqb char "\" then
    Next (set_escaping (set_unescapedTrailingSpaces st 0) true)
  else if Ascii.eqb char "=" then equals st
  else if Ascii.eqb char "," || Ascii.eqb char "+" then delimiter char st
  else if Ascii.eqb char " " && (String.length (buffer st) =? 0) then Next st
  else ordinary char st.

(** The statements after the loop. *)
Definition finish (st : locals) : result :=
  if 0 <? String.length (buffer st) then
    if String.length (Type' (attribute st)) =? 0 then Error ErrIncomplete
    else
      match stringFromBuffer st with
      | None => Panic SliceOutOfRange
      | Some (s, st) =>
          let st := set_attribute st {| Type' := Type' (attribute st); Value := s |} in
          let st := set_rdn st {| Attributes := Attributes (rdn st) ++ [attribute st] |} in
          let st := set_dn st {| RDNs := RDNs (dn st) ++ [rdn st] |} in
          Ok (dn st)
      end
  else Ok (dn st).

(** [i++] *)
Definition incr (st : locals) : locals := set_i st (i st + 1).

(** The loop [for i := 0; i < len(str); i++], entered with locals [st].
    Every iteration moves [i] forward, so [len(str) - i] iterations are
    enough; [None] is a run that would need more than [fuel]. *)
Fixpoint loop (fuel : nat) (st : locals) : option result :=
  if String.length str <=? i st then Some (finish st)
  else
    match fuel with
    | 0 => None
    | S fuel' =>
        match body st with
        | Return r => Some r
        | Next st' => loop fuel' (incr st')
        end
    end.

(** [ParseDN(str)]: [Some r] when the call ends in [r]. *)
Definition ParseDN : option result := loop (String.length str) init.

(** The locals at the head of the loop once [n] iterations are done, if
    the scan gets that far. *)
Fixpoint stateAfter (n : nat) : option locals :=
  match n with
  | 0 => Some init
  | S n' =>
      match stateAfter n' with
      | Some st =>
          if i st <? String.length str then
            match body st with
            | Next st' => Some (incr st')
            | Return _ => None
            end
          else None
      | None => None
      end
  end.

End Parser.

(** ** Notions used in the statements *)

(** A decoder that rejects every payload. *)
Definition rejectAll : BERDecoder := fun _ => None.

(** An attribute, a relative name and a name, written compactly. *)
Definition atv (t v : string) : AttributeTypeAndValue := {| Type' := t; Value := v |}.
Definition mkRDN (l : list AttributeTypeAndValue) : RelativeDN := {| Attributes := l |}.
Definition mkDN (l : list RelativeDN) : DN := {| RDNs := l |}.

(** The counter of trailing spaces is within the buffer. *)
Definition counter_ok (st : locals) : Prop :=
  unescapedTrailingSpaces st <= String.length (buffer st).

(** The token that [stringFromBuffer] hands out. *)
Definition token (st : locals) : string :=
  slice (buffer st) 0 (String.length (buffer st) - unescapedTrailingSpaces st).

(** The DN returned when the input ends in the locals [st] with a value in
    the buffer and a type set. *)
Definition closed (st : locals) (value : string) : DN :=
  mkDN (RDNs (dn st) ++
        [mkRDN (Attributes (rdn st) ++ [atv (Type' (attribute st)) value])]).

(** The locals after the iteration at an unescaped space that is not a
    leading one. *)
Definition afterSpace (st : locals) : locals :=
  incr (set_buffer (set_unescapedTrailingSpaces st (unescapedTrailingSpaces st + 1))
          (WriteByte (buffer st) " ")).

(** [k] such iterations in a row. *)
Fixpoint afterSpaces (k : nat) (st : locals) : locals :=
  match k with
  | 0 => st
  | S k' => afterSpace (afterSpaces k' st)
  end.

(** A text without backslash and without [#]: nothing in it starts an
    escape or a value in hexadecimal form. *)
Fixpoint plain (s : string) : bool :=
  match s with
  | EmptyString => true
  | String c s' => negb (Ascii.eqb c "\") && negb (Ascii.eqb c "#") && plain s'
  end.

(** A text without [#]. *)
Fixpoint noSharp (s : string) : bool :=
  match s with
  | EmptyString => true
  | String c s' => negb (Ascii.eqb c "#") && noSharp s'
  end.

(** The RelativeDNs [l] that the rest of an input gives, put after the
    RelativeDNs [D] closed before it; the attributes [A] of the RelativeDN
    left open before it go in front of the first of them, and are lost when
    there is none. *)
Definition graftRDNs (D : list RelativeDN) (A : list AttributeTypeAndValue)
  (l : list RelativeDN) : list RelativeDN :=
  match l with
  | [] => D
  | r :: rs => D ++ mkRDN (A ++ Attributes r) :: rs
  end.

Definition graft (D : list RelativeDN) (A : list AttributeTypeAndValue)
  (r : result) : result :=
  match r with
  | Ok d => Ok (mkDN (graftRDNs D A (RDNs d)))
  | Error e => Error e
  | Panic p => Panic p
  end.

(** The locals of the scan of [p ++ s], [offset] being the length of [p],
    that go with the locals [st] of the scan of [s] alone. *)
Definition embed (offset : nat) (D : list RelativeDN) (A : list AttributeTypeAndValue)
  (st : locals) : locals :=
  {| dn := mkDN (graftRDNs D A (RDNs (dn st)));
     rdn := match RDNs (dn st) with
            | [] => mkRDN (A ++ Attributes (rdn st))
            | _ :: _ => rdn st
            end;
     buffer := buffer st;
     attribute := attribute st;
     escaping := escaping st;
     unescapedTrailingSpaces := unescapedTrailingSpaces st;
     i := offset + i st |}.

Definition embed_control (offset : nat) (D : list RelativeDN)
  (A : list AttributeTypeAndValue) (c : control) : control :=
  match c with
  | Next st => Next (embed offset D A st)
  | Return r => Return r
  end.

(** [k] spaces. *)
Fixpoint spaces (k : nat) : string :=
  match k with
  | 0 => EmptyString
  | S k' => String " " (spaces k')
  end.

(** A byte that the loop body appends as it is wherever it stands: no
    backslash, [=], [,], [+] or [#]. *)
Definition wordByte (c : ascii) : bool :=
  negb (existsb (Ascii.eqb c) ["\"; "="; ","; "+"; "#"]%char).

Fixpoint wordBytes (w : string) : bool :=
  match w with
  | EmptyString => true
  | String c w' => wordByte c && wordBytes w'
  end.

Definition startsNonSpace (w : string) : bool :=
  match w with
  | EmptyString => false
  | String c _ => negb (Ascii.eqb c " ")
  end.

Fixpoint endsNonSpace (w : string) : bool :=
  match w with
  | EmptyString => false
  | String c EmptyString => negb (Ascii.eqb c " ")
  | String _ w' => endsNonSpace w'
  end.

(** A word: a text of such bytes, not empty, with no space at either end. *)
Definition word (w : string) : bool :=
  wordBytes w && startsNonSpace w && endsNonSpace w.

Definition wordy (a : AttributeTypeAndValue) : bool :=
  word (Type' a) && word (Value a).

(** A DN written out: [type=value], the attributes of a RelativeDN joined
    by [+], the RelativeDNs by [,]. *)
Definition renderATV (a : AttributeTypeAndValue) : string :=
  Type' a ++ "=" ++ Value a.

Fixpoint renderRDN (l : list AttributeTypeAndValue) : string :=
  match l with
  | [] => EmptyString
  | [a] => renderATV a
  | a :: l' => renderATV a ++ "+" ++ renderRDN l'
  end.

Fixpoint render (l : list (list AttributeTypeAndValue)) : string :=
  match l with
  | [] => EmptyString
  | [r] => renderRDN r
  | r :: l' => renderRDN r ++ "," ++ render l'
  end.

(** A value written with every byte escaped as a backslash and two
    hexadecimal digits. *)
Definition hexDigit (n : nat) : ascii :=
  if n <? 10 then ascii_of_nat (48 + n) else ascii_of_nat (55 + n).

Definition escapeByte (c : ascii) (rest : string) : string :=
  String "\" (String (hexDigit (nat_of_ascii c / 16))
                (String (hexDigit (nat_of_ascii c mod 16)) rest)).

Fixpoint escapeHex (v : string) : string :=
  match v with
  | EmptyString => EmptyString
  | String c v' => escapeByte c (escapeHex v')
  end.

(** ** Facts on strings *)

Lemma length_append (s t : string) :
  String.length (s ++ t) = String.length s + String.length t.
Proof.
  induction s as [|c s IH]; simpl; [reflexivity|]. rewrite IH. reflexivity.
Qed.

(** A prefix of [s ++ t] no longer than [s] is a prefix of [s]. *)
Lemma substring_prefix_append (s t : string) :
  forall m, m <= String.length s -> substring 0 m (s ++ t) = substring 0 m s.
Proof.
  induction s as [|c s IH]; intros m Hm; simpl in Hm.
  - assert (m = 0) by lia. subst. simpl. destruct t; reflexivity.
  - destruct m as [|m]; simpl; [reflexivity|]. rewrite IH by lia. reflexivity.
Qed.

Lemma substring_whole (s : string) : substring 0 (String.length s) s = s.
Proof.
  induction s as [|c s IH]; simpl; [reflexivity|]. rewrite IH. reflexivity.
Qed.

(** Two bytes of a string, sliced. *)
Lemma slice_two (s : string) :
  forall k, k + 1 < String.length s ->
    substring k 2 s =
      String (match String.get k s with Some c => c | None => Ascii.zero end)
        (String (match String.get (k + 1) s with Some c => c | None => Ascii.zero end)
           EmptyString).
Proof.
  induction s as [|c s IH]; intros k Hk; simpl in Hk; [lia|].
  destruct k as [|k].
  - destruct s as [|d s]; simpl in Hk; [lia|].
    simpl. destruct s; reflexivity.
  - simpl. apply IH. lia.
Qed.

Lemma get_append_left (s t : string) :
  forall k, k < String.length s -> String.get k (s ++ t) = String.get k s.
Proof.
  induction s as [|c s IH]; intros k Hk; simpl in Hk; [lia|].
  destruct k as [|k]; simpl; [reflexivity|]. apply IH. lia.
Qed.

Lemma get_append_right (s t : string) :
  forall k, String.get (String.length s + k) (s ++ t) = String.get k t.
Proof.
  induction s as [|c s IH]; intros k; simpl; [reflexivity|]. apply IH.
Qed.

Lemma plain_get (s : string) :
  plain s = true ->
  forall k c, String.get k s = Some c -> c <> "\"%char /\ c <> "#"%char.
Proof.
  induction s as [|d s IH]; intros Hplain k c Hget; simpl in *; [discriminate|].
  apply andb_prop in Hplain. destruct Hplain as [Hd Hs].
  apply andb_prop in Hd. destruct Hd as [Hd1 Hd2].
  destruct k as [|k].
  - inversion Hget; subst. split; intros ->; discriminate.
  - apply (IH Hs k c Hget).
Qed.

(** On two bytes of which one is not a hexadecimal digit [Decode] fails,
    and names such a byte. *)
Lemma Decode_two (c d : ascii) :
  fromHexChar c = None \/ fromHexChar d = None ->
  exists b, Decode (String c (String d EmptyString)) = inl (InvalidByteError b).
Proof.
  unfold Decode. simpl. intros [H|H].
  - rewrite H. exists c. reflexivity.
  - destruct (fromHexChar c).
    + rewrite H. exists d. reflexivity.
    + exists c. reflexivity.
Qed.

(** ** The loop terminates *)

Section Termination.

Variable DecodePacket : BERDecoder.
Variable str : string.

Ltac split_body :=
  repeat match goal with
         | H : context [match ?x with _ => _ end] |- _ => destruct x eqn:?
         | H : (_, _) = (_, _) |- _ => inversion H; subst; clear H
         | H : Some _ = Some _ |- _ => inversion H; subst; clear H
         | H : Next _ = Next _ |- _ => inversion H; subst; clear H
         | H : Return _ = Next _ |- _ => discriminate H
         | H : None = Some _ |- _ => discriminate H
         end.

(** [stringFromBuffer] leaves [i] alone. *)
Lemma stringFromBuffer_i (st st' : locals) (s : string) :
  stringFromBuffer st = Some (s, st') -> i st' = i st.
Proof.
  unfold stringFromBuffer. intros H. split_body. reflexivity.
Qed.

(** No iteration moves [i] backwards. *)
Lemma body_i_mono (st st' : locals) :
  body DecodePacket str st = Next st' -> i st <= i st'.
Proof.
  unfold body, escaped, equals, delimiter, ordinary. intros H.
  split_body; simpl;
    repeat match goal with
           | E : stringFromBuffer _ = Some _ |- _ => apply stringFromBuffer_i in E
           end; simpl in *; lia.
Qed.

(** With [len(str) - i] iterations allowed the loop ends, and allowing more
    changes nothing. *)
Lemma loop_enough_fuel (fuel : nat) :
  forall st, String.length str - i st <= fuel ->
    exists r, loop DecodePacket str fuel st = Some r /\
              forall fuel', fuel <= fuel' -> loop DecodePacket str fuel' st = Some r.
Proof.
  induction fuel as [|fuel IH]; intros st Hfuel.
  - exists (finish st).
    assert (Hle : (String.length str <=? i st) = true) by (apply Nat.leb_le; lia).
    split.
    + simpl. rewrite Hle. reflexivity.
    + intros fuel' _. destruct fuel'; simpl; rewrite Hle; reflexivity.
  - destruct (String.length str <=? i st) eqn:Hle.
    + exists (finish st). split.
      * simpl. rewrite Hle. reflexivity.
      * intros fuel' _. destruct fuel'; simpl; rewrite Hle; reflexivity.
    + apply Nat.leb_gt in Hle.
      destruct (body DecodePacket str st) as [st'|r] eqn:Hbody.
      * pose proof (body_i_mono _ _ Hbody) as Hmono.
        destruct (IH (incr st')) as [r [Hr Hmore]].
        { unfold incr. simpl. lia. }
        exists r. split.
        -- simpl. apply Nat.leb_gt in Hle. rewrite Hle, Hbody. exact Hr.
        -- intros fuel' Hf. destruct fuel' as [|fuel']; [lia|].
           simpl. apply Nat.leb_gt in Hle. rewrite Hle, Hbody.
           apply Hmore. lia.
      * exists r. split.
        -- simpl. apply Nat.leb_gt in Hle. rewrite Hle, Hbody. reflexivity.
        -- intros fuel' Hf. destruct fuel' as [|fuel']; [lia|].
           simpl. apply Nat.leb_gt in Hle. rewrite Hle, Hbody. reflexivity.
Qed.

(** X18: [ParseDN] always ends, in a DN, an error or a panic: every
    iteration moves [i] forward, also the one that steps back by one after
    an empty hexadecimal span. *)
Lemma ParseDN_terminates : exists r, ParseDN DecodePacket str = Some r.
Proof.
  destruct (loop_enough_fuel (String.length str) init) as [r [Hr _]].
  - simpl. lia.
  - exists r. exact Hr.
Qed.

(** Two sufficient amounts of fuel give the same run. *)
Lemma loop_fuel_irrelevant (st : locals) (fuel1 fuel2 : nat) :
  String.length str - i st <= fuel1 ->
  String.length str - i st <= fuel2 ->
  loop DecodePacket str fuel1 st = loop DecodePacket str fuel2 st.
Proof.
  intros H1 H2.
  destruct (loop_enough_fuel (String.length str - i st) st (Nat.le_refl _))
    as [r [_ Hmore]].
  rewrite (Hmore fuel1 H1), (Hmore fuel2 H2). reflexivity.
Qed.

(** The call is the loop resumed at any state the scan goes through. *)
Lemma stateAfter_resume (n : nat) :
  forall st, stateAfter DecodePacket str n = Some st ->
    forall fuel, String.length str - i st <= fuel ->
      ParseDN DecodePacket str = loop DecodePacket str fuel st.
Proof.
  induction n as [|n IH]; intros st Hst fuel Hfuel.
  - simpl in Hst. inversion Hst; subst. unfold ParseDN.
    apply loop_fuel_irrelevant; simpl in *; lia.
  - simpl in Hst.
    destruct (stateAfter DecodePacket str n) as [st0|] eqn:Hprev; [|discriminate].
    destruct (i st0 <? String.length str) eqn:Hlt; [|discriminate].
    destruct (body DecodePacket str st0) as [st'|r] eqn:Hbody; [|discriminate].
    inversion Hst; subst. clear Hst.
    apply Nat.ltb_lt in Hlt.
    pose proof (body_i_mono _ _ Hbody) as Hmono.
    assert (Hbig : String.length str - i st0 <= S (String.length str)) by lia.
    rewrite (IH st0 eq_refl (S (String.length str)) Hbig).
    simpl. assert (Hle : (String.length str <=? i st0) = false) by (apply Nat.leb_gt; lia).
    rewrite Hle, Hbody.
    apply loop_fuel_irrelevant; [|exact Hfuel].
    unfold incr. simpl. lia.
Qed.

(** An iteration that returns ends the call with what it returns. *)
Lemma stateAfter_return (n : nat) (st : locals) (r : result) :
  stateAfter DecodePacket str n = Some st ->
  i st < String.length str ->
  body DecodePacket str st = Return r ->
  ParseDN DecodePacket str = Some r.
Proof.
  intros Hst Hlt Hbody.
  rewrite (stateAfter_resume n st Hst (S (String.length str))) by lia.
  simpl. assert (Hle : (String.length str <=? i st) = false) by (apply Nat.leb_gt; lia).
  rewrite Hle, Hbody. reflexivity.
Qed.

(** When the scan leaves the loop, the call ends with [finish]. *)
Lemma stateAfter_finish (n : nat) (st : locals) :
  stateAfter DecodePacket str n = Some st ->
  String.length str <= i st ->
  ParseDN DecodePacket str = Some (finish st).
Proof.
  intros Hst Hge.
  rewrite (stateAfter_resume n st Hst 0) by lia.
  simpl. assert (Hle : (String.length str <=? i st) = true) by (apply Nat.leb_le; lia).
  rewrite Hle. reflexivity.
Qed.

End Termination.

(** One more iteration, when the body does not return. *)
Lemma stateAfter_step (dec : BERDecoder) (str : string) (n : nat) (st st' : locals) :
  stateAfter dec str n = Some st ->
  i st < String.length str ->
  body dec str st = Next st' ->
  stateAfter dec str (S n) = Some (incr st').
Proof.
  intros Hst Hlt Hbody. simpl. rewrite Hst.
  apply Nat.ltb_lt in Hlt. rewrite Hlt, Hbody. reflexivity.
Qed.

(** ** The counter of trailing spaces never exceeds the buffer *)

Section Counter.

Variable DecodePacket : BERDecoder.
Variable str : string.

(** Under [counter_ok] the slice of [stringFromBuffer] is in range. *)
Lemma stringFromBuffer_ok (st : locals) :
  counter_ok st ->
  stringFromBuffer st =
    Some (slice (buffer st) 0 (String.length (buffer st) - unescapedTrailingSpaces st),
          set_unescapedTrailingSpaces (set_buffer st "") 0).
Proof.
  unfold counter_ok, stringFromBuffer. intros H.
  apply Nat.leb_le in H. rewrite H. reflexivity.
Qed.

Lemma stringFromBuffer_resets (st st' : locals) (s : string) :
  stringFromBuffer st = Some (s, st') ->
  buffer st' = "" /\ unescapedTrailingSpaces st' = 0.
Proof.
  unfold stringFromBuffer. intros H.
  destruct (unescapedTrailingSpaces st <=? String.length (buffer st)); [|discriminate].
  inversion H; subst. simpl. split; reflexivity.
Qed.

Lemma body_counter_ok (st st' : locals) :
  counter_ok st -> body DecodePacket str st = Next st' -> counter_ok st'.
Proof.
  unfold counter_ok, body, escaped, equals, delimiter, ordinary. intros Hok H.
  repeat match goal with
         | H : context [match ?x with _ => _ end] |- _ => destruct x eqn:?
         | H : Next _ = Next _ |- _ => inversion H; subst; clear H
         | H : Return _ = Next _ |- _ => discriminate H
         | E : stringFromBuffer _ = Some _ |- _ =>
             apply stringFromBuffer_resets in E; destruct E
         end;
    simpl in *; unfold WriteByte, WriteString;
    try rewrite length_append; simpl; try lia.
Qed.

Lemma stateAfter_counter_ok (n : nat) :
  forall st, stateAfter DecodePacket str n = Some st -> counter_ok st.
Proof.
  induction n as [|n IH]; intros st Hst; simpl in Hst.
  - inversion Hst; subst. unfold counter_ok. simpl. lia.
  - destruct (stateAfter DecodePacket str n) as [st0|]; [|discriminate].
    destruct (i st0 <? String.length str); [|discriminate].
    destruct (body DecodePacket str st0) as [st'|] eqn:Hbody; [|discriminate].
    inversion Hst; subst.
    pose proof (body_counter_ok _ _ (IH st0 eq_refl) Hbody) as H.
    unfold counter_ok, incr in *. simpl. exact H.
Qed.

End Counter.

(** The end of the input in a state whose counter is within the buffer:
    a DN or the error of an incomplete pair. *)
Lemma finish_cases (st : locals) :
  counter_ok st ->
  (exists d, finish st = Ok d) \/ finish st = Error ErrIncomplete.
Proof.
  intros Hok. unfold finish. rewrite (stringFromBuffer_ok st Hok).
  destruct (0 <? String.length (buffer st)).
  - destruct (String.length (Type' (attribute st)) =? 0); [right; reflexivity|].
    left. eexists. reflexivity.
  - left. eexists. reflexivity.
Qed.

(** ** No slice is out of range *)

Section SlicesInRange.

Variable DecodePacket : BERDecoder.
Variable str : string.

Lemma body_slices_in_range (st : locals) :
  counter_ok st -> body DecodePacket str st <> Return (Panic SliceOutOfRange).
Proof.
  intros Hok. unfold body, escaped, equals, delimiter, ordinary.
  rewrite (stringFromBuffer_ok st Hok).
  repeat match goal with
         | |- context [if ?b then _ else _] => destruct b eqn:?
         | |- context [match ?x with _ => _ end] => destruct x eqn:?
         end; subst; simpl in *; congruence.
Qed.

Lemma loop_slices_in_range (fuel : nat) :
  forall st, counter_ok st ->
    loop DecodePacket str fuel st <> Some (Panic SliceOutOfRange).
Proof.
  induction fuel as [|fuel IH]; intros st Hok; simpl.
  - destruct (String.length str <=? i st); [|discriminate].
    destruct (finish_cases st Hok) as [[d Hd]|He]; [rewrite Hd|rewrite He]; discriminate.
  - destruct (String.length str <=? i st).
    + destruct (finish_cases st Hok) as [[d Hd]|He]; [rewrite Hd|rewrite He]; discriminate.
    + destruct (body DecodePacket str st) as [st'|r] eqn:Hbody.
      * apply IH. pose proof (body_counter_ok _ _ st st' Hok Hbody) as H.
        unfold counter_ok, incr in *. simpl. exact H.
      * intros Heq. inversion Heq; subst.
        exact (body_slices_in_range st Hok Hbody).
Qed.

(** The slice expression of [stringFromBuffer] never panics. *)
Lemma ParseDN_slices_in_range :
  ParseDN DecodePacket str <> Some (Panic SliceOutOfRange).
Proof.
  apply loop_slices_in_range. unfold counter_ok. simpl. lia.
Qed.

End SlicesInRange.

(** ** The branches of the loop body, one at a time *)

Section Branches.

Variable DecodePacket : BERDecoder.
Variable str : string.

(** An iteration entered with the escape flag set, at a byte outside the
    [case] list, returns an error: the truncation error at the last byte,
    the hexadecimal one when the two bytes are not both digits. *)
Lemma body_malformed_escape (st : locals) :
  i st < String.length str ->
  escaping st = true ->
  isSpecial (byteAt str (i st)) = false ->
  (String.length str = i st + 1 ->
     body DecodePacket str st = Return (Error ErrCorruptedEscape)) /\
  (String.length str <> i st + 1 ->
     fromHexChar (byteAt str (i st)) = None \/
     fromHexChar (byteAt str (i st + 1)) = None ->
     exists b, body DecodePacket str st =
                 Return (Error (ErrDecodeEscaped (InvalidByteError b)))).
Proof.
  intros Hlt Hesc Hspecial. unfold body, escaped. rewrite Hesc, Hspecial. simpl.
  split.
  - intros Hlen. apply Nat.eqb_eq in Hlen. rewrite Hlen. reflexivity.
  - intros Hlen Hhex. apply Nat.eqb_neq in Hlen. rewrite Hlen.
    unfold slice. replace (i st + 2 - i st) with 2 by lia.
    rewrite slice_two by (apply Nat.eqb_neq in Hlen; lia).
    destruct (Decode_two _ _ Hhex) as [b Hb].
    unfold byteAt in Hb. rewrite Hb. exists b. reflexivity.
Qed.

(** An escaped pair of hexadecimal digits appends the byte they denote,
    whatever it is, and changes nothing else but the position. *)
Lemma body_escaped_hexpair (st : locals) (a b : nat) :
  i st + 1 < String.length str ->
  escaping st = true ->
  isSpecial (byteAt str (i st)) = false ->
  fromHexChar (byteAt str (i st)) = Some a ->
  fromHexChar (byteAt str (i st + 1)) = Some b ->
  body DecodePacket str st =
    Next {| dn := dn st; rdn := rdn st;
            buffer := WriteByte (buffer st) (ascii_of_nat (16 * a + b));
            attribute := attribute st;
            escaping := false; unescapedTrailingSpaces := 0;
            i := i st + 1 |}.
Proof.
  intros Hlt Hesc Hspecial Ha Hb.
  unfold body, escaped. rewrite Hesc, Hspecial. simpl.
  assert (Hlen : (String.length str =? i st + 1) = false) by (apply Nat.eqb_neq; lia).
  rewrite Hlen. unfold slice. replace (i st + 2 - i st) with 2 by lia.
  rewrite slice_two by lia. fold (byteAt str (i st)). fold (byteAt str (i st + 1)).
  unfold Decode. simpl. rewrite Ha, Hb. reflexivity.
Qed.

(** An escaped special character is appended as it is. *)
Lemma body_escaped_special (st : locals) :
  escaping st = true ->
  isSpecial (byteAt str (i st)) = true ->
  body DecodePacket str st =
    Next {| dn := dn st; rdn := rdn st;
            buffer := WriteByte (buffer st) (byteAt str (i st));
            attribute := attribute st;
            escaping := false; unescapedTrailingSpaces := 0;
            i := i st |}.
Proof.
  intros Hesc Hspecial. unfold body, escaped. rewrite Hesc, Hspecial. reflexivity.
Qed.

(** An unescaped [=] that no [#] follows makes the token the type of the
    attribute in progress; the type it had is not looked at. *)
Lemma body_equals_plain (st : locals) :
  counter_ok st ->
  escaping st = false ->
  byteAt str (i st) = "="%char ->
  (i st + 1 <? String.length str) && Ascii.eqb (byteAt str (i st + 1)) "#" = false ->
  body DecodePacket str st =
    Next {| dn := dn st; rdn := rdn st; buffer := "";
            attribute := {| Type' := token st; Value := Value (attribute st) |};
            escaping := false; unescapedTrailingSpaces := 0;
            i := i st |}.
Proof.
  intros Hok Hesc Heq Hnosharp.
  unfold body, equals. rewrite Hesc, Heq. simpl.
  rewrite (stringFromBuffer_ok st Hok). simpl. rewrite Hnosharp.
  unfold set_attribute, set_unescapedTrailingSpaces, set_buffer. simpl.
  rewrite Hesc. reflexivity.
Qed.

(** What the iteration does at an unescaped [=] followed by [#]: the text
    up to the delimiter is decoded from hexadecimal and handed to the BER
    decoder. *)
Lemma body_hexstring (st : locals) :
  counter_ok st ->
  i st + 1 < String.length str ->
  escaping st = false ->
  byteAt str (i st) = "="%char ->
  byteAt str (i st + 1) = "#"%char ->
  body DecodePacket str st =
    match DecodeString (hexSpan str (i st + 2)) with
    | inl err => Return (Error (ErrDecodeBER err))
    | inr rawBER =>
        match DecodePacket rawBER with
        | None => Return (Panic NilDereference)
        | Some packet =>
            Next {| dn := dn st; rdn := rdn st; buffer := Data packet;
                    attribute :=
                      {| Type' := slice (buffer st) 0
                                    (String.length (buffer st) - unescapedTrailingSpaces st);
                         Value := Value (attribute st) |};
                    escaping := false; unescapedTrailingSpaces := 0;
                    i := i st + 2 + String.length (hexSpan str (i st + 2)) - 1 |}
        end
    end.
Proof.
  intros Hok Hlt Hesc Heq Hsharp.
  unfold body, equals. rewrite Hesc, Heq. simpl.
  rewrite (stringFromBuffer_ok st Hok). simpl.
  rewrite Hsharp. simpl.
  apply Nat.ltb_lt in Hlt. rewrite Hlt. simpl.
  destruct (DecodeString (hexSpan str (i st + 2))) as [err|rawBER]; [reflexivity|].
  destruct (DecodePacket rawBER) as [packet|]; [|reflexivity].
  unfold set_i, set_buffer, set_attribute, set_unescapedTrailingSpaces. simpl.
  rewrite Hesc. reflexivity.
Qed.

(** An unescaped [+] completes the attribute in progress, appends it to the
    RelativeDN in progress and leaves the DN as it is. *)
Lemma body_plus (st : locals) :
  counter_ok st ->
  escaping st = false ->
  byteAt str (i st) = "+"%char ->
  body DecodePacket str st =
    Next {| dn := dn st;
            rdn := {| Attributes :=
                        Attributes (rdn st) ++
                        [{| Type' := Type' (attribute st); Value := token st |}] |};
            buffer := ""; attribute := newAttribute;
            escaping := false; unescapedTrailingSpaces := 0;
            i := i st |}.
Proof.
  intros Hok Hesc Hplus.
  unfold body, delimiter. rewrite Hesc, Hplus. simpl.
  rewrite (stringFromBuffer_ok st Hok). simpl.
  unfold set_attribute, set_rdn, set_unescapedTrailingSpaces, set_buffer. simpl.
  rewrite Hesc. reflexivity.
Qed.

(** An unescaped [,] does the same and then closes the RelativeDN: it is
    appended to the DN and a new one is begun. *)
Lemma body_comma (st : locals) :
  counter_ok st ->
  escaping st = false ->
  byteAt str (i st) = ","%char ->
  body DecodePacket str st =
    Next {| dn := {| RDNs :=
                       RDNs (dn st) ++
                       [{| Attributes :=
                             Attributes (rdn st) ++
                             [{| Type' := Type' (attribute st); Value := token st |}] |}] |};
            rdn := newRelativeDN;
            buffer := ""; attribute := newAttribute;
            escaping := false; unescapedTrailingSpaces := 0;
            i := i st |}.
Proof.
  intros Hok Hesc Hcomma.
  unfold body, delimiter. rewrite Hesc, Hcomma. simpl.
  rewrite (stringFromBuffer_ok st Hok). simpl.
  unfold set_attribute, set_dn, set_rdn, set_unescapedTrailingSpaces, set_buffer. simpl.
  rewrite Hesc. reflexivity.
Qed.

Lemma body_space (st : locals) :
  escaping st = false ->
  0 < String.length (buffer st) ->
  byteAt str (i st) = " "%char ->
  body DecodePacket str st =
    Next (set_buffer (set_unescapedTrailingSpaces st (unescapedTrailingSpaces st + 1))
            (WriteByte (buffer st) " ")).
Proof.
  intros Hesc Hbuf Hsp. unfold body, ordinary. rewrite Hesc, Hsp. simpl.
  destruct (String.length (buffer st)) eqn:Hlen; [lia|]. reflexivity.
Qed.

End Branches.

(** ** Values in hexadecimal BER form *)

Section HexString.

Variable DecodePacket : BERDecoder.
Variable str : string.

(** X6: a span that is not hexadecimal ends the call with the error of the
    hexadecimal decoder, wherever the scan meets the [=#]. *)
Lemma ParseDN_hexstring_invalid_hex (n : nat) (st : locals) (err : HexError) :
  stateAfter DecodePacket str n = Some st ->
  i st + 1 < String.length str ->
  escaping st = false ->
  byteAt str (i st) = "="%char ->
  byteAt str (i st + 1) = "#"%char ->
  DecodeString (hexSpan str (i st + 2)) = inl err ->
  ParseDN DecodePacket str = Some (Error (ErrDecodeBER err)).
Proof.
  intros Hst Hlt Hesc Heq Hsharp Hhex.
  apply (stateAfter_return DecodePacket str n st _ Hst); [lia|].
  rewrite (body_hexstring _ _ st (stateAfter_counter_ok _ _ n st Hst) Hlt Hesc Heq Hsharp).
  rewrite Hhex. reflexivity.
Qed.

End HexString.

(** ** Spaces at the end of a value *)

Section TrailingSpaces.

Variable DecodePacket : BERDecoder.
Variable str : string.

Lemma finish_value (st : locals) :
  counter_ok st ->
  0 < String.length (buffer st) ->
  0 < String.length (Type' (attribute st)) ->
  finish st = Ok (closed st (token st)).
Proof.
  intros Hok Hbuf Htype. unfold finish.
  apply Nat.ltb_lt in Hbuf. rewrite Hbuf.
  assert (Hty : (String.length (Type' (attribute st)) =? 0) = false)
    by (apply Nat.eqb_neq; lia).
  rewrite Hty, (stringFromBuffer_ok st Hok). reflexivity.
Qed.

Lemma afterSpaces_facts (k : nat) (st : locals) :
  counter_ok st ->
  0 < String.length (buffer st) ->
  let st' := afterSpaces k st in
  dn st' = dn st /\ rdn st' = rdn st /\ attribute st' = attribute st /\
  escaping st' = escaping st /\ i st' = i st + k /\
  counter_ok st' /\ 0 < String.length (buffer st') /\ token st' = token st.
Proof.
  intros Hok Hbuf. induction k as [|k IH]; simpl.
  - repeat split; try assumption. lia.
  - simpl in IH. destruct IH as (Hdn & Hrdn & Hattr & Hesc & Hi & Hok' & Hbuf' & Htok).
    unfold afterSpace, incr, counter_ok, token in *. simpl.
    unfold WriteByte. rewrite length_append. simpl.
    repeat split; try assumption; try lia.
    rewrite <- Htok. unfold slice.
    rewrite !Nat.sub_0_r.
    replace (String.length (buffer (afterSpaces k st)) + 1 -
             (unescapedTrailingSpaces (afterSpaces k st) + 1))
      with (String.length (buffer (afterSpaces k st)) -
            unescapedTrailingSpaces (afterSpaces k st)) by lia.
    apply substring_prefix_append. lia.
Qed.

(** Through a run of spaces the scan goes one byte per iteration. *)
Lemma stateAfter_spaces (n : nat) (st : locals) :
  stateAfter DecodePacket str n = Some st ->
  escaping st = false ->
  0 < String.length (buffer st) ->
  forall k, i st + k <= String.length str ->
    (forall j, i st <= j < i st + k -> byteAt str j = " "%char) ->
    stateAfter DecodePacket str (k + n) = Some (afterSpaces k st).
Proof.
  intros Hst Hesc Hbuf. pose proof (stateAfter_counter_ok _ _ n st Hst) as Hok.
  induction k as [|k IH]; intros Hlen Hsp; simpl; [exact Hst|].
  rewrite IH by (try lia; intros j Hj; apply Hsp; lia).
  destruct (afterSpaces_facts k st Hok Hbuf) as (_ & _ & _ & Hesc' & Hi & _ & Hbuf' & _).
  assert (Hlt : (i (afterSpaces k st) <? String.length str) = true)
    by (apply Nat.ltb_lt; lia).
  rewrite Hlt, body_space; [reflexivity | congruence | assumption | apply Hsp; lia].
Qed.

End TrailingSpaces.

(** ** Escapes after a plain prefix *)

Section PlainPrefix.

Variable DecodePacket : BERDecoder.

(** An iteration outside an escape, at a byte that is no backslash and
    with no [#] next, does not return and does not enter an escape. *)
Lemma body_plain (str : string) (st : locals) :
  counter_ok st ->
  escaping st = false ->
  byteAt str (i st) <> "\"%char ->
  byteAt str (i st + 1) <> "#"%char ->
  exists st', body DecodePacket str st = Next st' /\
              escaping st' = false /\ i st' = i st.
Proof.
  intros Hok Hesc Hbs Hsharp.
  apply Ascii.eqb_neq in Hbs. apply Ascii.eqb_neq in Hsharp.
  unfold body, equals, delimiter, ordinary.
  rewrite Hesc, Hbs, (stringFromBuffer_ok st Hok). simpl.
  rewrite Hsharp, andb_false_r.
  repeat match goal with
         | |- context [if ?b then _ else _] => destruct b
         end;
    eexists; (split; [reflexivity|]); simpl; auto.
Qed.

Variables (pre rest : string).

(** The scan of [pre\rest], [pre] plain, is at the backslash after as many
    iterations as [pre] has bytes, outside an escape. *)
Lemma stateAfter_plain_prefix :
  plain pre = true ->
  forall k, k <= String.length pre ->
    exists st, stateAfter DecodePacket (pre ++ String "\" rest) k = Some st /\
               i st = k /\ escaping st = false.
Proof.
  intros Hplain. set (str := pre ++ String "\" rest).
  assert (Hlen : String.length str = String.length pre + S (String.length rest))
    by (unfold str; rewrite length_append; reflexivity).
  assert (Hat : forall j, j <= String.length pre ->
                          byteAt str j <> "#"%char /\
                          (j < String.length pre -> byteAt str j <> "\"%char)).
  { intros j Hj. unfold byteAt, str.
    destruct (Nat.eq_dec j (String.length pre)) as [->|Hne].
    - replace (String.length pre) with (String.length pre + 0) at 1 by lia.
      rewrite get_append_right. simpl. split; [discriminate|lia].
    - rewrite get_append_left by lia.
      destruct (String.get j pre) as [c|] eqn:Hget.
      + destruct (plain_get pre Hplain j c Hget). split; auto.
      + split; [discriminate|]. intros _. discriminate. }
  induction k as [|k IH]; intros Hk.
  - exists init. repeat split.
  - destruct IH as [st [Hst [Hi Hesc]]]; [lia|].
    destruct (body_plain str st (stateAfter_counter_ok _ _ k st Hst) Hesc)
      as [st' [Hbody [Hesc' Hi']]].
    + rewrite Hi. apply Hat; lia.
    + rewrite Hi. replace (k + 1) with (S k) by lia. apply Hat. lia.
    + exists (incr st'). split; [|split].
      * apply (stateAfter_step DecodePacket str k st st' Hst); [lia | exact Hbody].
      * unfold incr. simpl. lia.
      * exact Hesc'.
Qed.

(** One iteration more, and the scan is inside the escape. *)
Lemma stateAfter_plain_escape :
  plain pre = true ->
  exists st, stateAfter DecodePacket (pre ++ String "\" rest) (S (String.length pre))
               = Some st /\
             i st = S (String.length pre) /\ escaping st = true.
Proof.
  intros Hplain.
  destruct (stateAfter_plain_prefix Hplain (String.length pre) (Nat.le_refl _))
    as [st [Hst [Hi Hesc]]].
  set (str := pre ++ String "\" rest) in *.
  assert (Hbs : byteAt str (i st) = "\"%char).
  { unfold byteAt, str. rewrite Hi.
    replace (String.length pre) with (String.length pre + 0) at 1 by lia.
    rewrite get_append_right. reflexivity. }
  exists (incr (set_escaping (set_unescapedTrailingSpaces st 0) true)).
  split; [|split].
  - apply (stateAfter_step DecodePacket str (String.length pre) st _ Hst).
    + unfold str. rewrite length_append. simpl. lia.
    + unfold body. rewrite Hesc, Hbs. reflexivity.
  - unfold incr. simpl. lia.
  - reflexivity.
Qed.

End PlainPrefix.

(** A backslash as the last byte of the input, after a plain text, raises no
    error of its own: the call ends as at the end of any input. *)
Lemma ParseDN_trailing_backslash (dec : BERDecoder) (pre : string) :
  plain pre = true ->
  (exists d, ParseDN dec (pre ++ "\") = Some (Ok d)) \/
  ParseDN dec (pre ++ "\") = Some (Error ErrIncomplete).
Proof.
  intros Hplain.
  destruct (stateAfter_plain_escape dec pre "" Hplain) as [st [Hst [Hi _]]].
  rewrite (stateAfter_finish dec _ _ st Hst)
    by (rewrite length_append, Hi; simpl; lia).
  destruct (finish_cases st (stateAfter_counter_ok _ _ _ st Hst)) as [[d Hd]|He].
  - left. exists d. rewrite Hd. reflexivity.
  - right. rewrite He. reflexivity.
Qed.

(** ** Malformed escapes *)

(** An escape that is neither a special character nor two hexadecimal
    digits ends the call, wherever the scan meets it. *)
Lemma ParseDN_escape_scan (dec : BERDecoder) (str : string) (n : nat) (st : locals) :
  stateAfter dec str n = Some st ->
  i st < String.length str ->
  escaping st = true ->
  isSpecial (byteAt str (i st)) = false ->
  (String.length str = i st + 1 ->
     ParseDN dec str = Some (Error ErrCorruptedEscape)) /\
  (String.length str <> i st + 1 ->
     fromHexChar (byteAt str (i st)) = None \/
     fromHexChar (byteAt str (i st + 1)) = None ->
     exists b, ParseDN dec str =
                 Some (Error (ErrDecodeEscaped (InvalidByteError b)))).
Proof.
  intros Hst Hlt Hesc Hspecial.
  destruct (body_malformed_escape dec str st Hlt Hesc Hspecial) as [Hlast Hhex].
  split.
  - intros Hlen. apply (stateAfter_return dec str n st _ Hst Hlt). auto.
  - intros Hlen Hbad. destruct (Hhex Hlen Hbad) as [b Hb].
    exists b. apply (stateAfter_return dec str n st _ Hst Hlt). exact Hb.
Qed.

(** ** The parser at a few inputs *)

Example ParseDN_star (dec : BERDecoder) :
  ParseDN dec "*" = Some (Error ErrIncomplete).
Proof. reflexivity. Qed.

Example ParseDN_escape_not_hex (dec : BERDecoder) :
  ParseDN dec "cn=Jim\0Test" = Some (Error (ErrDecodeEscaped (InvalidByteError "T"))).
Proof. reflexivity. Qed.

Example ParseDN_escape_cut (dec : BERDecoder) :
  ParseDN dec "cn=Jim\0" = Some (Error ErrCorruptedEscape).
Proof. reflexivity. Qed.

Example ParseDN_missing_type_at_end (dec : BERDecoder) :
  ParseDN dec "DC=example,=net" = Some (Error ErrIncomplete).
Proof. reflexivity. Qed.

Example ParseDN_odd_hexstring (dec : BERDecoder) :
  ParseDN dec "1=#0402486" = Some (Error (ErrDecodeBER ErrLength)).
Proof. reflexivity. Qed.

Example ParseDN_hexstring_at_delimiter (dec : BERDecoder) :
  ParseDN dec "CN=#,O=x" = Some (Error (ErrDecodeBER (InvalidByteError ","))).
Proof. reflexivity. Qed.

Example ParseDN_leading_spaces (dec : BERDecoder) :
  ParseDN dec "CN=   James" = Some (Ok (mkDN [mkRDN [atv "CN" "James"]])).
Proof. reflexivity. Qed.

Example ParseDN_spaces_around (dec : BERDecoder) :
  ParseDN dec "   A   =   1   ,   B   =   2   " =
    Some (Ok (mkDN [mkRDN [atv "A" "1"]; mkRDN [atv "B" "2"]])).
Proof. reflexivity. Qed.

Example ParseDN_hexstring_decoded :
  ParseDN (fun rawBER => Some {| Data := rawBER |}) "CN=#4869,DC=net" =
    Some (Ok (mkDN [mkRDN [atv "CN" "Hi"]; mkRDN [atv "DC" "net"]])).
Proof. reflexivity. Qed.

(** ** The claims of the specification *)

(** C1 (amended): whenever the scan of an input arrives, with the escape
    flag set (the byte before was an unescaped backslash), at a byte that is
    not one of the special characters, [ParseDN] returns an error and no DN:
    the truncated-escape error when that byte is the last one of the input,
    and otherwise the invalid-hex error when that byte and the next are not
    two hexadecimal digits.  So it is for the inputs [pre\c] and [pre\cd...]
    with [pre] free of backslashes and of [#]. *)
Theorem ParseDN_malformed_escape (dec : BERDecoder) :
  (forall str n st,
      stateAfter dec str n = Some st ->
      i st < String.length str ->
      escaping st = true ->
      isSpecial (byteAt str (i st)) = false ->
      (String.length str = i st + 1 ->
         ParseDN dec str = Some (Error ErrCorruptedEscape)) /\
      (String.length str <> i st + 1 ->
         fromHexChar (byteAt str (i st)) = None \/
         fromHexChar (byteAt str (i st + 1)) = None ->
         exists b, ParseDN dec str =
                     Some (Error (ErrDecodeEscaped (InvalidByteError b))))) /\
  (forall pre c,
      plain pre = true ->
      isSpecial c = false ->
      ParseDN dec (pre ++ String "\" (String c EmptyString)) =
        Some (Error ErrCorruptedEscape)) /\
  (forall pre c d rest,
      plain pre = true ->
      isSpecial c = false ->
      fromHexChar c = None \/ fromHexChar d = None ->
      exists b, ParseDN dec (pre ++ String "\" (String c (String d rest))) =
                  Some (Error (ErrDecodeEscaped (InvalidByteError b)))).
Proof.
  pose proof (ParseDN_escape_scan dec) as Hscan.
  split; [exact Hscan|split].
  - intros pre c Hplain Hspecial.
    destruct (stateAfter_plain_escape dec pre (String c EmptyString) Hplain)
      as [st [Hst [Hi Hesc]]].
    set (str := pre ++ String "\" (String c EmptyString)) in *.
    assert (Hlen : String.length str = String.length pre + 2)
      by (unfold str; rewrite length_append; simpl; lia).
    assert (Hc : byteAt str (i st) = c).
    { unfold byteAt, str. rewrite Hi.
      replace (S (String.length pre)) with (String.length pre + 1) by lia.
      rewrite get_append_right. reflexivity. }
    apply (proj1 (Hscan str _ st Hst ltac:(lia) Hesc ltac:(rewrite Hc; exact Hspecial))).
    lia.
  - intros pre c d rest Hplain Hspecial Hbad.
    destruct (stateAfter_plain_escape dec pre (String c (String d rest)) Hplain)
      as [st [Hst [Hi Hesc]]].
    set (str := pre ++ String "\" (String c (String d rest))) in *.
    assert (Hlen : String.length str = String.length pre + 3 + String.length rest)
      by (unfold str; rewrite length_append; simpl; lia).
    assert (Hc : byteAt str (i st) = c).
    { unfold byteAt, str. rewrite Hi.
      replace (S (String.length pre)) with (String.length pre + 1) by lia.
      rewrite get_append_right. reflexivity. }
    assert (Hd : byteAt str (i st + 1) = d).
    { unfold byteAt, str. rewrite Hi.
      replace (S (String.length pre) + 1) with (String.length pre + 2) by lia.
      rewrite get_append_right. reflexivity. }
    apply (proj2 (Hscan str _ st Hst ltac:(lia) Hesc ltac:(rewrite Hc; exact Hspecial))).
    + lia.
    + rewrite Hc, Hd. exact Hbad.
Qed.

(** The theorem at the inputs [CN=\Z] (truncated) and [CN=\ZZ] (not
    hexadecimal): four iterations reach the byte after the backslash; and
    again through the plain prefix [CN=]. *)
Lemma ParseDN_malformed_escape_witness :
  (ParseDN rejectAll "CN=\Z" = Some (Error ErrCorruptedEscape) /\
   exists b, ParseDN rejectAll "CN=\ZZ" =
               Some (Error (ErrDecodeEscaped (InvalidByteError b)))) /\
  ParseDN rejectAll ("CN=" ++ "\Z") = Some (Error ErrCorruptedEscape) /\
  exists b, ParseDN rejectAll ("CN=" ++ "\ZZ") =
              Some (Error (ErrDecodeEscaped (InvalidByteError b))).
Proof.
  pose (st := {| dn := mkDN []; rdn := mkRDN []; buffer := "";
                 attribute := atv "CN" "";
                 escaping := true; unescapedTrailingSpaces := 0; i := 4 |}).
  split; [split|split].
  - apply (proj1 (proj1 (ParseDN_malformed_escape rejectAll) "CN=\Z" 4 st
                    eq_refl (Nat.lt_succ_diag_r 4) eq_refl eq_refl)).
    reflexivity.
  - apply (proj2 (proj1 (ParseDN_malformed_escape rejectAll) "CN=\ZZ" 4 st
                    eq_refl (Nat.lt_lt_succ_r 4 5 (Nat.lt_succ_diag_r 4))
                    eq_refl eq_refl)).
    + discriminate.
    + left. reflexivity.
  - exact (proj1 (proj2 (ParseDN_malformed_escape rejectAll)) "CN=" "Z"%char
             eq_refl eq_refl).
  - exact (proj2 (proj2 (ParseDN_malformed_escape rejectAll)) "CN=" "Z"%char "Z"%char ""
             eq_refl eq_refl (or_introl eq_refl)).
Defined.

(** C1 as stated fails twice.  The input [CN=a\] ends in a backslash and is
    parsed into the DN [CN=a]; in [CN=\Z] the backslash is followed by a byte
    that is neither special nor a hexadecimal digit, and the error is the
    truncation error, not the hexadecimal one. *)
Lemma ParseDN_malformed_escape_counterexample :
  (String.get 4 "CN=a\" = Some "\"%char /\ String.length "CN=a\" = 5 /\
   ParseDN rejectAll "CN=a\" = Some (Ok (mkDN [mkRDN [atv "CN" "a"]])) /\
   ParseDN rejectAll "CN=a\" <> Some (Error ErrCorruptedEscape)) /\
  (String.get 3 "CN=\Z" = Some "\"%char /\ String.get 4 "CN=\Z" = Some "Z"%char /\
   isSpecial "Z" = false /\ fromHexChar "Z" = None /\
   ParseDN rejectAll "CN=\Z" = Some (Error ErrCorruptedEscape) /\
   forall e, ParseDN rejectAll "CN=\Z" <> Some (Error (ErrDecodeEscaped e))).
Proof.
  repeat split; discriminate.
Qed.

(** C2: the defect.  When the scan arrives at an unescaped [=] followed by
    [#] and the span decodes from hexadecimal to bytes that the BER decoder
    rejects, [ParseDN] returns no error: it reads a field of the nil packet
    and panics.  (A span that is not hexadecimal does give an error,
    [ParseDN_hexstring_invalid_hex].) *)
Theorem ParseDN_hexstring_rejected
  (dec : BERDecoder) (str : string) (n : nat) (st : locals) (rawBER : string) :
  stateAfter dec str n = Some st ->
  i st + 1 < String.length str ->
  escaping st = false ->
  byteAt str (i st) = "="%char ->
  byteAt str (i st + 1) = "#"%char ->
  DecodeString (hexSpan str (i st + 2)) = inr rawBER ->
  dec rawBER = None ->
  ParseDN dec str = Some (Panic NilDereference).
Proof.
  intros Hst Hlt Hesc Heq Hsharp Hhex Hrej.
  apply (stateAfter_return dec str n st _ Hst); [lia|].
  rewrite (body_hexstring dec str st (stateAfter_counter_ok _ _ n st Hst) Hlt Hesc Heq Hsharp).
  rewrite Hhex, Hrej. reflexivity.
Qed.

(** The theorem at the input [CN=#04], whose span decodes to the single
    byte 4, an identifier octet without a length. *)
Lemma ParseDN_hexstring_rejected_witness :
  ParseDN rejectAll "CN=#04" = Some (Panic NilDereference).
Proof.
  apply (ParseDN_hexstring_rejected rejectAll "CN=#04" 2
           {| dn := mkDN []; rdn := mkRDN []; buffer := "CN";
              attribute := newAttribute;
              escaping := false; unescapedTrailingSpaces := 0; i := 2 |}
           (String (ascii_of_nat 4) EmptyString));
    try reflexivity.
  simpl. lia.
Defined.

(** C3: the defect.  The input [a,CN=b] is parsed without error, and the
    first attribute of the DN has the empty type: the branch of [,] and [+]
    appends the attribute without the test on its type that the end of the
    input makes. *)
Theorem ParseDN_empty_type (dec : BERDecoder) :
  ParseDN dec "a,CN=b" = Some (Ok (mkDN [mkRDN [atv "" "a"]; mkRDN [atv "CN" "b"]])) /\
  exists r a, In r (RDNs (mkDN [mkRDN [atv "" "a"]; mkRDN [atv "CN" "b"]])) /\
              In a (Attributes r) /\ String.length (Type' a) = 0.
Proof.
  split; [reflexivity|].
  exists (mkRDN [atv "" "a"]), (atv "" "a"). simpl. auto.
Qed.

(** C4: the defect.  [CN] fails with the error of an incomplete pair, as
    it should; [CN=] succeeds, but its DN has no RelativeDN at all, where
    the attribute [(CN, "")] is due: the statements after the loop append
    the attribute only when the buffer is not empty, and so lose one whose
    type is set and whose value is empty.  The branch of [,] keeps such an
    attribute, as in [CN=,]. *)
Theorem ParseDN_incomplete_pair (dec : BERDecoder) :
  ParseDN dec "CN" = Some (Error ErrIncomplete) /\
  ParseDN dec "CN=" = Some (Ok (mkDN [])).
Proof.
  split; reflexivity.
Qed.

(** The DN of [CN=] holds no attribute of type [CN] with the empty
    value. *)
Lemma ParseDN_CN_equals_no_attribute :
  ParseDN rejectAll "CN=" = Some (Ok (mkDN [])) /\
  ~ (exists d r a, ParseDN rejectAll "CN=" = Some (Ok d) /\
                   In r (RDNs d) /\ In a (Attributes r) /\
                   Type' a = "CN" /\ Value a = "").
Proof.
  split; [reflexivity|].
  intros [d [r [a [Hd [Hr _]]]]].
  vm_compute in Hd. inversion Hd; subst. simpl in Hr. exact Hr.
Qed.

(** C5: four RelativeDNs in the order of the input, one attribute each, the
    first one [(CN, James)]. *)
Theorem ParseDN_four_RDNs (dec : BERDecoder) :
  ParseDN dec "CN=James,OU=Engineering,DC=example,DC=com" =
    Some (Ok (mkDN [mkRDN [atv "CN" "James"]; mkRDN [atv "OU" "Engineering"];
                    mkRDN [atv "DC" "example"]; mkRDN [atv "DC" "com"]])).
Proof.
  reflexivity.
Qed.

(** C6: unescaped spaces at the end of the input are stripped from the last
    value, an escaped space at the end is kept.  In general: when the scan
    is inside a value, with a type set, and the rest of the input is made of
    unescaped spaces, the DN is the one the input would give if it ended
    there; when the last byte of the input is an escaped space, the value is
    the whole buffer followed by that space.  [CN=James] followed by three
    spaces gives the value [James]; [CN=James\ ] gives [James] with the
    space. *)
Theorem ParseDN_trailing_spaces (dec : BERDecoder) :
  (forall str n st,
      stateAfter dec str n = Some st ->
      escaping st = false ->
      0 < String.length (buffer st) ->
      0 < String.length (Type' (attribute st)) ->
      (forall j, i st <= j < String.length str -> byteAt str j = " "%char) ->
      ParseDN dec str = Some (Ok (closed st (token st)))) /\
  (forall str n st,
      stateAfter dec str n = Some st ->
      escaping st = true ->
      String.length str = i st + 1 ->
      byteAt str (i st) = " "%char ->
      0 < String.length (Type' (attribute st)) ->
      ParseDN dec str = Some (Ok (closed st (buffer st ++ " ")))) /\
  ParseDN dec "CN=James   " = Some (Ok (mkDN [mkRDN [atv "CN" "James"]])) /\
  ParseDN dec "CN=James\ " = Some (Ok (mkDN [mkRDN [atv "CN" "James "]])).
Proof.
  split; [|split; [|split; reflexivity]].
  - intros str n st Hst Hesc Hbuf Htype Hsp.
    pose proof (stateAfter_counter_ok _ _ n st Hst) as Hok.
    destruct (Nat.le_gt_cases (i st) (String.length str)) as [Hle|Hgt].
    + set (k := String.length str - i st).
      destruct (afterSpaces_facts k st Hok Hbuf)
        as (Hdn & Hrdn & Hattr & _ & Hi & Hok' & Hbuf' & Htok).
      rewrite (stateAfter_finish dec str (k + n) (afterSpaces k st)).
      * rewrite finish_value by (try assumption; rewrite Hattr; assumption).
        unfold closed. rewrite Hdn, Hrdn, Hattr, Htok. reflexivity.
      * apply stateAfter_spaces; try assumption; unfold k; try lia.
        intros j Hj. apply Hsp. lia.
      * rewrite Hi. unfold k. lia.
    + rewrite (stateAfter_finish dec str n st Hst) by lia.
      rewrite finish_value by assumption. reflexivity.
  - intros str n st Hst Hesc Hlen Hsp Htype.
    set (st1 := {| dn := dn st; rdn := rdn st;
                   buffer := WriteByte (buffer st) (byteAt str (i st));
                   attribute := attribute st;
                   escaping := false; unescapedTrailingSpaces := 0;
                   i := i st |}).
    assert (Hbody : body dec str st = Next st1).
    { apply body_escaped_special; [assumption|]. rewrite Hsp. reflexivity. }
    rewrite (stateAfter_finish dec str (S n) (incr st1)).
    + rewrite finish_value.
      * unfold closed, token, incr, slice. simpl.
        rewrite Hsp, !Nat.sub_0_r, substring_whole. reflexivity.
      * unfold counter_ok, incr. simpl. lia.
      * unfold incr. simpl. unfold WriteByte. rewrite length_append. simpl. lia.
      * simpl. assumption.
    + simpl. rewrite Hst.
      assert (Hlt : (i st <? String.length str) = true) by (apply Nat.ltb_lt; lia).
      rewrite Hlt, Hbody. reflexivity.
    + unfold incr. simpl. lia.
Qed.

(** The general statements at the two inputs of the claim, eight
    iterations into the first and nine into the second. *)
Lemma ParseDN_trailing_spaces_witness :
  ParseDN rejectAll "CN=James   " = Some (Ok (mkDN [mkRDN [atv "CN" "James"]])) /\
  ParseDN rejectAll "CN=James\ " = Some (Ok (mkDN [mkRDN [atv "CN" "James "]])).
Proof.
  split.
  - apply (proj1 (ParseDN_trailing_spaces rejectAll) "CN=James   " 8
             {| dn := mkDN []; rdn := mkRDN []; buffer := "James";
                attribute := atv "CN" "";
                escaping := false; unescapedTrailingSpaces := 0; i := 8 |});
      try reflexivity; simpl; try lia.
    intros j Hj.
    assert (Hc : j = 8 \/ j = 9 \/ j = 10) by lia.
    destruct Hc as [Hc|[Hc|Hc]]; subst; reflexivity.
  - apply (proj1 (proj2 (ParseDN_trailing_spaces rejectAll)) "CN=James\ " 9
             {| dn := mkDN []; rdn := mkRDN []; buffer := "James";
                attribute := atv "CN" "";
                escaping := true; unescapedTrailingSpaces := 0; i := 9 |});
      try reflexivity.
    simpl. lia.
Defined.

(** C7: an escaped pair of hexadecimal digits stands for the byte they
    denote, and that byte only goes into the buffer: whatever its value, the
    DN, the RelativeDN and the attribute in progress are as before, and the
    scan resumes after the pair.  [CN=James\2C Jr.] gives one RelativeDN with
    the one attribute [(CN, "James, Jr.")]. *)
Theorem ParseDN_escaped_hexpair (dec : BERDecoder) :
  (forall str n st a b,
      stateAfter dec str n = Some st ->
      i st + 1 < String.length str ->
      escaping st = true ->
      isSpecial (byteAt str (i st)) = false ->
      fromHexChar (byteAt str (i st)) = Some a ->
      fromHexChar (byteAt str (i st + 1)) = Some b ->
      stateAfter dec str (S n) =
        Some {| dn := dn st; rdn := rdn st;
                buffer := buffer st ++ String (ascii_of_nat (16 * a + b)) EmptyString;
                attribute := attribute st;
                escaping := false; unescapedTrailingSpaces := 0;
                i := i st + 2 |}) /\
  ParseDN dec "CN=James\2C Jr." = Some (Ok (mkDN [mkRDN [atv "CN" "James, Jr."]])).
Proof.
  split; [|reflexivity].
  intros str n st a b Hst Hlt Hesc Hspecial Ha Hb.
  rewrite (stateAfter_step dec str n st _ Hst ltac:(lia)
             (body_escaped_hexpair dec str st a b Hlt Hesc Hspecial Ha Hb)).
  unfold incr, set_i, WriteByte. simpl.
  replace (i st + 1 + 1) with (i st + 2) by lia. reflexivity.
Qed.

(** The general statement in [CN=James\2C Jr.], at the [2] after the
    backslash: the comma, byte 44, joins the buffer. *)
Lemma ParseDN_escaped_hexpair_witness :
  stateAfter rejectAll "CN=James\2C Jr." 10 =
    Some {| dn := mkDN []; rdn := mkRDN []; buffer := "James,";
            attribute := atv "CN" "";
            escaping := false; unescapedTrailingSpaces := 0; i := 11 |}.
Proof.
  apply (proj1 (ParseDN_escaped_hexpair rejectAll) "CN=James\2C Jr." 9
           {| dn := mkDN []; rdn := mkRDN []; buffer := "James";
              attribute := atv "CN" "";
              escaping := true; unescapedTrailingSpaces := 0; i := 9 |} 2 12);
    try reflexivity.
  simpl. lia.
Defined.

(** C8: an unescaped [+] appends the completed attribute to the RelativeDN
    in progress and does not close it: the DN is as before.
    [OU=Sales+CN=J. Smith] gives one RelativeDN with the two attributes
    [(OU, Sales)] and [(CN, "J. Smith")], in this order. *)
Theorem ParseDN_plus_joins (dec : BERDecoder) :
  (forall str n st,
      stateAfter dec str n = Some st ->
      i st < String.length str ->
      escaping st = false ->
      byteAt str (i st) = "+"%char ->
      stateAfter dec str (S n) =
        Some {| dn := dn st;
                rdn := mkRDN (Attributes (rdn st) ++
                              [atv (Type' (attribute st)) (token st)]);
                buffer := ""; attribute := newAttribute;
                escaping := false; unescapedTrailingSpaces := 0;
                i := i st + 1 |}) /\
  ParseDN dec "OU=Sales+CN=J. Smith" =
    Some (Ok (mkDN [mkRDN [atv "OU" "Sales"; atv "CN" "J. Smith"]])).
Proof.
  split; [|reflexivity].
  intros str n st Hst Hlt Hesc Hplus.
  rewrite (stateAfter_step dec str n st _ Hst Hlt
             (body_plus dec str st (stateAfter_counter_ok _ _ n st Hst) Hesc Hplus)).
  reflexivity.
Qed.

(** The general statement at the [+] of [OU=Sales+CN=J. Smith]. *)
Lemma ParseDN_plus_joins_witness :
  stateAfter rejectAll "OU=Sales+CN=J. Smith" 9 =
    Some {| dn := mkDN []; rdn := mkRDN [atv "OU" "Sales"]; buffer := "";
            attribute := newAttribute;
            escaping := false; unescapedTrailingSpaces := 0; i := 9 |}.
Proof.
  apply (proj1 (ParseDN_plus_joins rejectAll) "OU=Sales+CN=J. Smith" 8
           {| dn := mkDN []; rdn := mkRDN []; buffer := "Sales";
              attribute := atv "OU" "";
              escaping := false; unescapedTrailingSpaces := 0; i := 8 |});
    try reflexivity.
  simpl. lia.
Defined.

(** C9: the empty input gives the DN without RelativeDNs and no error. *)
Theorem ParseDN_empty (dec : BERDecoder) :
  ParseDN dec "" = Some (Ok (mkDN [])).
Proof.
  reflexivity.
Qed.

(** C10: an unescaped [=] that no [#] follows makes the token in the buffer
    the type of the attribute in progress, whatever type an earlier [=] had
    given it; the DN and the RelativeDN in progress are as before, so the
    earlier type is kept nowhere, and no error is raised.  [CN=a=b] gives the
    single attribute [(a, b)]. *)
Theorem ParseDN_second_equals (dec : BERDecoder) :
  (forall str n st,
      stateAfter dec str n = Some st ->
      i st < String.length str ->
      escaping st = false ->
      byteAt str (i st) = "="%char ->
      (i st + 1 <? String.length str) && Ascii.eqb (byteAt str (i st + 1)) "#" = false ->
      stateAfter dec str (S n) =
        Some {| dn := dn st; rdn := rdn st; buffer := "";
                attribute := {| Type' := token st; Value := Value (attribute st) |};
                escaping := false; unescapedTrailingSpaces := 0;
                i := i st + 1 |}) /\
  ParseDN dec "CN=a=b" = Some (Ok (mkDN [mkRDN [atv "a" "b"]])).
Proof.
  split; [|reflexivity].
  intros str n st Hst Hlt Hesc Heq Hnosharp.
  rewrite (stateAfter_step dec str n st _ Hst Hlt
             (body_equals_plain dec str st (stateAfter_counter_ok _ _ n st Hst)
                Hesc Heq Hnosharp)).
  reflexivity.
Qed.

(** The general statement at the second [=] of [CN=a=b], where the
    attribute in progress has the type [CN]: it gets the type [a]. *)
Lemma ParseDN_second_equals_witness :
  (exists st, stateAfter rejectAll "CN=a=b" 4 = Some st /\
              Type' (attribute st) = "CN") /\
  stateAfter rejectAll "CN=a=b" 5 =
    Some {| dn := mkDN []; rdn := mkRDN []; buffer := "";
            attribute := atv "a" "";
            escaping := false; unescapedTrailingSpaces := 0; i := 5 |}.
Proof.
  pose (st := {| dn := mkDN []; rdn := mkRDN []; buffer := "a";
                 attribute := atv "CN" "";
                 escaping := false; unescapedTrailingSpaces := 0; i := 4 |}).
  split.
  - exists st. split; reflexivity.
  - apply (proj1 (ParseDN_second_equals rejectAll) "CN=a=b" 4 st);
      try reflexivity.
    simpl. lia.
Defined.

(** ** Further properties of the parser *)

(** *** What holds of every run *)

Section Runs.

Variable DecodePacket : BERDecoder.
Variable str : string.
Variable P : locals -> Prop.
Variable Q : result -> Prop.

Hypothesis P_next : forall st st',
  P st -> i st < String.length str -> body DecodePacket str st = Next st' -> P (incr st').
Hypothesis Q_return : forall st r,
  P st -> i st < String.length str -> body DecodePacket str st = Return r -> Q r.
Hypothesis Q_finish : forall st,
  P st -> String.length str <= i st -> Q (finish st).

(** An invariant of the iterations decides what the call can end in. *)
Lemma loop_invariant (fuel : nat) :
  forall st r, P st -> loop DecodePacket str fuel st = Some r -> Q r.
Proof.
  induction fuel as [|fuel IH]; intros st r HP Hloop; simpl in Hloop.
  - destruct (String.length str <=? i st) eqn:Hle; [|discriminate].
    inversion Hloop; subst. apply Q_finish; [assumption|]. apply Nat.leb_le. exact Hle.
  - destruct (String.length str <=? i st) eqn:Hle.
    + inversion Hloop; subst. apply Q_finish; [assumption|]. apply Nat.leb_le. exact Hle.
    + apply Nat.leb_gt in Hle.
      destruct (body DecodePacket str st) as [st'|r'] eqn:Hbody.
      * apply (IH (incr st') r); [|exact Hloop]. apply (P_next st st'); assumption.
      * inversion Hloop; subst. apply (Q_return st r); assumption.
Qed.

Lemma ParseDN_invariant (r : result) :
  P init -> ParseDN DecodePacket str = Some r -> Q r.
Proof.
  intros HP Hparse. exact (loop_invariant _ init r HP Hparse).
Qed.

End Runs.

Ltac body_cases H :=
  unfold body, escaped, equals, delimiter, ordinary in H;
  repeat match type of H with
         | context [match ?x with _ => _ end] => destruct x eqn:?
         end.

(** A panic of an iteration is the read of the nil packet. *)
Lemma body_panic (dec : BERDecoder) (str : string) (st : locals) (p : PanicKind) :
  counter_ok st ->
  body dec str st = Return (Panic p) ->
  p = NilDereference /\ exists rawBER, dec rawBER = None.
Proof.
  intros Hok H. pose proof (stringFromBuffer_ok st Hok) as Hsfb.
  body_cases H; try discriminate; try congruence.
  inversion H; subst. split; [reflexivity|]. eexists. eassumption.
Qed.

(** A panic of the call is the read of the nil packet. *)
Lemma ParseDN_panic_cause (dec : BERDecoder) (str : string) (p : PanicKind) :
  ParseDN dec str = Some (Panic p) ->
  p = NilDereference /\ exists rawBER, dec rawBER = None.
Proof.
  intros Hparse.
  refine (ParseDN_invariant dec str counter_ok
            (fun r => forall p, r = Panic p ->
                                p = NilDereference /\ exists rawBER, dec rawBER = None)
            _ _ _ (Panic p) _ Hparse p eq_refl).
  - intros st st' Hok _ Hbody.
    pose proof (body_counter_ok dec str st st' Hok Hbody) as H.
    unfold counter_ok, incr in *. simpl. exact H.
  - intros st r Hok _ Hbody q ->. exact (body_panic dec str st q Hok Hbody).
  - intros st Hok _ q Hq.
    destruct (finish_cases st Hok) as [[d Hd]|He]; congruence.
  - unfold counter_ok. simpl. lia.
Qed.

(** A panic of an iteration happens at an unescaped [=] followed by [#],
    on the payload that the span decodes to. *)
Lemma body_panic_at (dec : BERDecoder) (str : string) (st : locals) (p : PanicKind) :
  counter_ok st ->
  body dec str st = Return (Panic p) ->
  p = NilDereference /\
  escaping st = false /\
  byteAt str (i st) = "="%char /\
  i st + 1 < String.length str /\
  byteAt str (i st + 1) = "#"%char /\
  exists rawBER,
    DecodeString (hexSpan str (i st + 2)) = inr rawBER /\ dec rawBER = None.
Proof.
  intros Hok H. unfold body in H.
  destruct (escaping st) eqn:Hesc.
  { unfold escaped in H.
    repeat match type of H with
           | context [match ?x with _ => _ end] => destruct x
           end; discriminate. }
  destruct (Ascii.eqb (byteAt str (i st)) "\"); [discriminate|].
  destruct (Ascii.eqb (byteAt str (i st)) "=") eqn:Heq.
  - apply Ascii.eqb_eq in Heq.
    unfold equals in H. rewrite (stringFromBuffer_ok st Hok) in H. simpl in H.
    destruct (i st + 1 <? String.length str) eqn:Hlt; simpl in H; [|discriminate].
    destruct (Ascii.eqb (byteAt str (i st + 1)) "#") eqn:Hsharp; [|discriminate].
    apply Nat.ltb_lt in Hlt. apply Ascii.eqb_eq in Hsharp.
    destruct (DecodeString (hexSpan str (i st + 2))) as [err|rawBER] eqn:Hhex;
      [discriminate|].
    destruct (dec rawBER) as [packet|] eqn:Hdec; [discriminate|].
    inversion H; subst.
    repeat split; try assumption. exists rawBER. split; [reflexivity|assumption].
  - destruct (Ascii.eqb (byteAt str (i st)) "," || Ascii.eqb (byteAt str (i st)) "+").
    + unfold delimiter in H. rewrite (stringFromBuffer_ok st Hok) in H.
      simpl in H. destruct (Ascii.eqb (byteAt str (i st)) ","); discriminate.
    + destruct (Ascii.eqb (byteAt str (i st)) " " && (String.length (buffer st) =? 0));
        discriminate.
Qed.

(** X1: [ParseDN] panics only by reading the packet of a BER payload that
    the decoder rejected.  When the call panics, the panic is the read of
    the nil packet, not the slice of [stringFromBuffer], and the scan of this
    very input stands at an unescaped [=] followed by [#] whose span decodes
    from hexadecimal to a payload that the decoder answers with the nil
    packet. *)
Theorem ParseDN_panics_only_on_rejection
  (dec : BERDecoder) (str : string) (p : PanicKind) :
  ParseDN dec str = Some (Panic p) ->
  p = NilDereference /\
  exists n st rawBER,
    stateAfter dec str n = Some st /\
    escaping st = false /\
    byteAt str (i st) = "="%char /\
    i st + 1 < String.length str /\
    byteAt str (i st + 1) = "#"%char /\
    DecodeString (hexSpan str (i st + 2)) = inr rawBER /\
    dec rawBER = None.
Proof.
  intros Hparse.
  refine (ParseDN_invariant dec str
            (fun st => exists n, stateAfter dec str n = Some st)
            (fun r => forall p, r = Panic p ->
               p = NilDereference /\
               exists n st rawBER,
                 stateAfter dec str n = Some st /\
                 escaping st = false /\
                 byteAt str (i st) = "="%char /\
                 i st + 1 < String.length str /\
                 byteAt str (i st + 1) = "#"%char /\
                 DecodeString (hexSpan str (i st + 2)) = inr rawBER /\
                 dec rawBER = None)
            _ _ _ (Panic p) _ Hparse p eq_refl).
  - intros st st' [n Hst] Hlt Hbody. exists (S n).
    exact (stateAfter_step dec str n st st' Hst Hlt Hbody).
  - intros st r [n Hst] _ Hbody q ->.
    destruct (body_panic_at dec str st q (stateAfter_counter_ok _ _ n st Hst) Hbody)
      as (Hq & Hesc & Heq & Hlt & Hsharp & rawBER & Hhex & Hdec).
    split; [exact Hq|]. exists n, st, rawBER. repeat split; assumption.
  - intros st [n Hst] _ q Hq.
    destruct (finish_cases st (stateAfter_counter_ok _ _ n st Hst)) as [[d Hd]|He];
      congruence.
  - exists 0. reflexivity.
Qed.

(** The theorem at [CN=#04] with the decoder that rejects everything: the
    call panics, and the payload it names is the byte 4 that the span [04]
    decodes to. *)
Lemma ParseDN_panics_only_on_rejection_witness :
  ParseDN rejectAll "CN=#04" = Some (Panic NilDereference) /\
  NilDereference = NilDereference /\
  exists n st rawBER,
    stateAfter rejectAll "CN=#04" n = Some st /\
    escaping st = false /\
    byteAt "CN=#04" (i st) = "="%char /\
    i st + 1 < String.length "CN=#04" /\
    byteAt "CN=#04" (i st + 1) = "#"%char /\
    DecodeString (hexSpan "CN=#04" (i st + 2)) = inr rawBER /\
    rejectAll rawBER = None.
Proof.
  split; [reflexivity|].
  exact (ParseDN_panics_only_on_rejection rejectAll "CN=#04" NilDereference eq_refl).
Defined.

(** Two bytes that decode give one byte. *)
Lemma Decode_two_length (c d : ascii) (decoded : string) :
  Decode (String c (String d EmptyString)) = inr decoded -> String.length decoded = 1.
Proof.
  unfold Decode. simpl.
  destruct (fromHexChar c); [|discriminate].
  destruct (fromHexChar d); [|discriminate].
  intros H. inversion H. reflexivity.
Qed.

(** X2: the error [Expected 1 byte when un-escaping] is never returned: the
    two bytes after a backslash decode to one byte or not at all. *)
Theorem ParseDN_never_ErrExpectedOneByte (dec : BERDecoder) (str : string) (n : nat) :
  ParseDN dec str <> Some (Error (ErrExpectedOneByte n)).
Proof.
  intros Hparse.
  apply (ParseDN_invariant dec str (fun _ => True)
           (fun r => forall n, r <> Error (ErrExpectedOneByte n)))
    with (r := Error (ErrExpectedOneByte n)) (n := n); auto.
  - intros st r _ Hlt Hbody m ->.
    body_cases Hbody; try discriminate. simpl in *.
    match goal with
    | Hlen : (String.length str =? _) = false,
      Hdec : Decode _ = inr ?decoded,
      Hone : negb (String.length ?decoded =? 1) = true |- _ =>
        apply Nat.eqb_neq in Hlen;
        unfold slice in Hdec; replace (i st + 2 - i st) with 2 in Hdec by lia;
        rewrite slice_two in Hdec by lia;
        apply Decode_two_length in Hdec; rewrite Hdec in Hone; discriminate
    end.
  - intros st _ _ m. unfold finish.
    repeat match goal with
           | |- context [match ?x with _ => _ end] => destruct x
           end; discriminate.
Qed.

(** An iteration only ever appends to the DN, and what it appends is a
    RelativeDN with an attribute in it. *)
Lemma body_dn_grows (dec : BERDecoder) (str : string) (st st' : locals) :
  body dec str st = Next st' ->
  RDNs (dn st') = RDNs (dn st) \/
  exists a, RDNs (dn st') = (RDNs (dn st) ++ [mkRDN (Attributes (rdn st) ++ [a])])%list.
Proof.
  intros H. unfold stringFromBuffer in H. body_cases H; try discriminate;
    inversion H; subst; simpl; auto.
  all: unfold stringFromBuffer in *;
    repeat match goal with
           | E : context [if ?b then _ else _] |- _ => destruct b
           | E : Some _ = Some _ |- _ => inversion E; subst; clear E
           | E : None = Some _ |- _ => discriminate E
           end; simpl; eauto.
Qed.

(** So do the statements after the loop. *)
Lemma finish_dn_grows (st : locals) (d : DN) :
  finish st = Ok d ->
  RDNs d = RDNs (dn st) \/
  exists a, RDNs d = (RDNs (dn st) ++ [mkRDN (Attributes (rdn st) ++ [a])])%list.
Proof.
  unfold finish, stringFromBuffer. intros H.
  destruct (0 <? String.length (buffer st)).
  - destruct (String.length (Type' (attribute st)) =? 0); [discriminate|].
    destruct (unescapedTrailingSpaces st <=? String.length (buffer st));
      [|discriminate].
    inversion H; subst. simpl. right. eexists. reflexivity.
  - inversion H; subst. left. reflexivity.
Qed.

Lemma app_not_nil {A : Type} (l : list A) (a : A) : (l ++ [a])%list <> [].
Proof.
  destruct l; discriminate.
Qed.

(** X3: every RelativeDN of a returned DN holds at least one attribute. *)
Theorem ParseDN_RDNs_not_empty (dec : BERDecoder) (str : string) (d : DN) :
  ParseDN dec str = Some (Ok d) ->
  Forall (fun r => Attributes r <> []) (RDNs d).
Proof.
  intros Hparse.
  refine (ParseDN_invariant dec str
            (fun st => Forall (fun r => Attributes r <> []) (RDNs (dn st)))
            (fun r => forall d, r = Ok d -> Forall (fun r => Attributes r <> []) (RDNs d))
            _ _ _ (Ok d) _ Hparse d eq_refl).
  - intros st st' HP _ Hbody. unfold incr. simpl.
    destruct (body_dn_grows dec str st st' Hbody) as [Heq|[a Heq]]; rewrite Heq.
    + exact HP.
    + apply Forall_app. split; [exact HP|].
      constructor; [apply app_not_nil|constructor].
  - intros st r _ _ Hbody d0 ->. body_cases Hbody; discriminate.
  - intros st HP _ d0 Hfin.
    destruct (finish_dn_grows st d0 Hfin) as [Heq|[a Heq]]; rewrite Heq.
    + exact HP.
    + apply Forall_app. split; [exact HP|].
      constructor; [apply app_not_nil|constructor].
  - simpl. constructor.
Qed.

(** The theorem at [OU=Sales+CN=J. Smith,DC=net]. *)
Lemma ParseDN_RDNs_not_empty_witness :
  ParseDN rejectAll "OU=Sales+CN=J. Smith,DC=net" =
    Some (Ok (mkDN [mkRDN [atv "OU" "Sales"; atv "CN" "J. Smith"];
                    mkRDN [atv "DC" "net"]])) /\
  Forall (fun r => Attributes r <> [])
    [mkRDN [atv "OU" "Sales"; atv "CN" "J. Smith"]; mkRDN [atv "DC" "net"]].
Proof.
  split; [reflexivity|].
  exact (ParseDN_RDNs_not_empty rejectAll "OU=Sales+CN=J. Smith,DC=net"
           (mkDN [mkRDN [atv "OU" "Sales"; atv "CN" "J. Smith"]; mkRDN [atv "DC" "net"]])
           eq_refl).
Defined.

(** X4: a RelativeDN, once closed by an unescaped comma, stays where it is:
    the RelativeDNs closed so far at any point of the scan begin the
    returned DN, in the same order and unchanged. *)
Theorem ParseDN_keeps_closed_RDNs
  (dec : BERDecoder) (str : string) (n : nat) (st : locals) (d : DN) :
  stateAfter dec str n = Some st ->
  ParseDN dec str = Some (Ok d) ->
  exists rest, RDNs d = (RDNs (dn st) ++ rest)%list.
Proof.
  intros Hst Hparse.
  rewrite (stateAfter_resume dec str n st Hst (String.length str)) in Hparse by lia.
  refine (loop_invariant dec str
            (fun st' => exists rest, RDNs (dn st') = (RDNs (dn st) ++ rest)%list)
            (fun r => forall d, r = Ok d -> exists rest, RDNs d = (RDNs (dn st) ++ rest)%list)
            _ _ _ (String.length str) st (Ok d) _ Hparse d eq_refl).
  - intros st1 st2 [rest Hrest] _ Hbody. unfold incr. simpl.
    destruct (body_dn_grows dec str st1 st2 Hbody) as [Heq|[a Heq]]; rewrite Heq, Hrest.
    + exists rest. reflexivity.
    + eexists. rewrite <- app_assoc. reflexivity.
  - intros st1 r _ _ Hbody d0 ->. body_cases Hbody; discriminate.
  - intros st1 [rest Hrest] _ d0 Hfin.
    destruct (finish_dn_grows st1 d0 Hfin) as [Heq|[a Heq]]; rewrite Heq, Hrest.
    + exists rest. reflexivity.
    + eexists. rewrite <- app_assoc. reflexivity.
  - exists []. rewrite app_nil_r. reflexivity.
Qed.

(** The theorem in [CN=James,OU=Engineering,DC=example,DC=com], after the
    24 iterations up to and with the second comma. *)
Lemma ParseDN_keeps_closed_RDNs_witness :
  RDNs (dn {| dn := mkDN [mkRDN [atv "CN" "James"]; mkRDN [atv "OU" "Engineering"]];
              rdn := mkRDN []; buffer := ""; attribute := newAttribute;
              escaping := false; unescapedTrailingSpaces := 0; i := 24 |}) =
    [mkRDN [atv "CN" "James"]; mkRDN [atv "OU" "Engineering"]] /\
  exists rest,
    [mkRDN [atv "CN" "James"]; mkRDN [atv "OU" "Engineering"];
     mkRDN [atv "DC" "example"]; mkRDN [atv "DC" "com"]] =
    ([mkRDN [atv "CN" "James"]; mkRDN [atv "OU" "Engineering"]] ++ rest)%list.
Proof.
  split; [reflexivity|].
  exact (ParseDN_keeps_closed_RDNs rejectAll
           "CN=James,OU=Engineering,DC=example,DC=com" 24
           {| dn := mkDN [mkRDN [atv "CN" "James"]; mkRDN [atv "OU" "Engineering"]];
              rdn := mkRDN []; buffer := ""; attribute := newAttribute;
              escaping := false; unescapedTrailingSpaces := 0; i := 24 |}
           (mkDN [mkRDN [atv "CN" "James"]; mkRDN [atv "OU" "Engineering"];
                  mkRDN [atv "DC" "example"]; mkRDN [atv "DC" "com"]])
           eq_refl eq_refl).
Defined.

(** *** Inputs without [#] *)

Lemma noSharp_byteAt (str : string) :
  noSharp str = true -> forall k, byteAt str k <> "#"%char.
Proof.
  unfold byteAt. induction str as [|c str IH]; intros H k; simpl in *.
  - discriminate.
  - apply andb_prop in H. destruct H as [Hc Hrest].
    destruct k as [|k].
    + intros ->. discriminate.
    + apply IH. exact Hrest.
Qed.

(** The decoder is only consulted at a [=] that a [#] follows. *)
Lemma body_decoder_irrelevant (d1 d2 : BERDecoder) (str : string) (st : locals) :
  byteAt str (i st + 1) <> "#"%char ->
  body d1 str st = body d2 str st.
Proof.
  intros Hsharp. apply Ascii.eqb_neq in Hsharp.
  unfold body, equals, stringFromBuffer.
  destruct (unescapedTrailingSpaces st <=? String.length (buffer st)); simpl;
    [|reflexivity].
  rewrite Hsharp, andb_false_r. reflexivity.
Qed.

Lemma loop_decoder_irrelevant (d1 d2 : BERDecoder) (str : string) :
  noSharp str = true ->
  forall fuel st, loop d1 str fuel st = loop d2 str fuel st.
Proof.
  intros Hno. induction fuel as [|fuel IH]; intros st; simpl; [reflexivity|].
  rewrite (body_decoder_irrelevant d1 d2 str st (noSharp_byteAt str Hno _)).
  destruct (body d2 str st); [|reflexivity].
  rewrite IH. reflexivity.
Qed.

(** X5: on an input without the byte [#] the BER decoder plays no part:
    the result is the same with any two decoders, and it is never a
    panic. *)
Theorem ParseDN_without_sharp (d1 d2 : BERDecoder) (str : string) :
  noSharp str = true ->
  ParseDN d1 str = ParseDN d2 str /\
  forall p, ParseDN d1 str <> Some (Panic p).
Proof.
  intros Hno. split.
  - apply loop_decoder_irrelevant. exact Hno.
  - intros p Hp.
    unfold ParseDN in Hp.
    rewrite (loop_decoder_irrelevant d1 (fun rawBER => Some {| Data := rawBER |}) str Hno)
      in Hp.
    destruct (ParseDN_panic_cause _ str p Hp) as [_ [rawBER Hraw]]. discriminate.
Qed.

(** The theorem at [CN=James\2C Jr.,DC=net], with the decoder that rejects
    everything and the one that hands the payload back. *)
Lemma ParseDN_without_sharp_witness :
  ParseDN rejectAll "CN=James\2C Jr.,DC=net" =
    ParseDN (fun rawBER => Some {| Data := rawBER |}) "CN=James\2C Jr.,DC=net" /\
  forall p, ParseDN rejectAll "CN=James\2C Jr.,DC=net" <> Some (Panic p).
Proof.
  exact (ParseDN_without_sharp rejectAll (fun rawBER => Some {| Data := rawBER |})
           "CN=James\2C Jr.,DC=net" eq_refl).
Defined.

(** *** Values in hexadecimal form *)

(** X6 is [ParseDN_hexstring_invalid_hex]; here it is at [1=#0402486],
    whose span has an odd number of digits. *)
Lemma ParseDN_hexstring_invalid_hex_witness :
  ParseDN rejectAll "1=#0402486" = Some (Error (ErrDecodeBER ErrLength)).
Proof.
  apply (ParseDN_hexstring_invalid_hex rejectAll "1=#0402486" 1
           {| dn := mkDN []; rdn := mkRDN []; buffer := "1";
              attribute := newAttribute;
              escaping := false; unescapedTrailingSpaces := 0; i := 1 |});
    try reflexivity.
  simpl. lia.
Defined.

Lemma length_substring (s : string) :
  forall j m, j + m <= String.length s -> String.length (substring j m s) = m.
Proof.
  induction s as [|c s IH]; intros j m H; simpl in H.
  - assert (j = 0) by lia. assert (m = 0) by lia. subst. reflexivity.
  - destruct j as [|j]; simpl.
    + destruct m as [|m]; simpl; [reflexivity|]. rewrite IH by lia. reflexivity.
    + apply IH. lia.
Qed.

(** The rest of a string from an index inside it begins with the byte at
    that index. *)
Lemma sliceFrom_cons (s : string) :
  forall j, j < String.length s ->
    sliceFrom s j = String (byteAt s j) (sliceFrom s (j + 1)).
Proof.
  unfold sliceFrom, byteAt.
  induction s as [|c s IH]; intros j H; simpl in H; [lia|].
  destruct j as [|j].
  - simpl. rewrite Nat.sub_0_r. reflexivity.
  - simpl String.length. replace (S (String.length s) - S j)
      with (String.length s - j) by lia.
    replace (S (String.length s) - (S j + 1)) with (String.length s - (j + 1)) by lia.
    simpl. apply IH. lia.
Qed.

(** A text that begins with a byte that is no hexadecimal digit does not
    decode. *)
Lemma Decode_bad_head (c : ascii) (s : string) :
  fromHexChar c = None -> exists err, Decode (String c s) = inl err.
Proof.
  intros Hc. unfold Decode.
  destruct s as [|d s]; [eexists; reflexivity|].
  destruct (Nat.odd (String.length (String c (String d s)))); [eexists; reflexivity|].
  simpl. rewrite Hc. eexists. reflexivity.
Qed.

(** X7: a [=#] that a [,] or a [+] follows at once is an error: with the
    delimiter at index 0 the span is the whole rest of the input, delimiter
    included, and that is no hexadecimal text. *)
Theorem ParseDN_hexstring_empty
  (dec : BERDecoder) (str : string) (n : nat) (st : locals) :
  stateAfter dec str n = Some st ->
  i st + 2 < String.length str ->
  escaping st = false ->
  byteAt str (i st) = "="%char ->
  byteAt str (i st + 1) = "#"%char ->
  byteAt str (i st + 2) = ","%char \/ byteAt str (i st + 2) = "+"%char ->
  exists err, ParseDN dec str = Some (Error (ErrDecodeBER err)).
Proof.
  intros Hst Hlt Hesc Heq Hsharp Hdelim.
  assert (Hspan : exists c, fromHexChar c = None /\
                            hexSpan str (i st + 2) =
                              String c (sliceFrom str (i st + 2 + 1))).
  { unfold hexSpan. rewrite (sliceFrom_cons str (i st + 2) Hlt).
    destruct Hdelim as [Hc|Hc]; rewrite Hc;
      [exists ","%char | exists "+"%char]; split; reflexivity. }
  destruct Hspan as [c [Hc Hspan]].
  destruct (Decode_bad_head c (sliceFrom str (i st + 2 + 1)) Hc) as [err Herr].
  exists err.
  apply (stateAfter_return dec str n st _ Hst); [lia|].
  rewrite (body_hexstring dec str st (stateAfter_counter_ok _ _ n st Hst)
             ltac:(lia) Hesc Heq Hsharp).
  unfold DecodeString. rewrite Hspan, Herr. reflexivity.
Qed.

(** The theorem at [CN=#,O=x]. *)
Lemma ParseDN_hexstring_empty_witness :
  exists err, ParseDN rejectAll "CN=#,O=x" = Some (Error (ErrDecodeBER err)).
Proof.
  apply (ParseDN_hexstring_empty rejectAll "CN=#,O=x" 2
           {| dn := mkDN []; rdn := mkRDN []; buffer := "CN";
              attribute := newAttribute;
              escaping := false; unescapedTrailingSpaces := 0; i := 2 |});
    try reflexivity.
  - simpl. lia.
  - left. reflexivity.
Defined.

(** X8: a value in hexadecimal form that ends the input is what the BER
    decoder makes of the decoded bytes, as it is: nothing in it is read as
    an escape or a delimiter and no space is stripped from it.  The call
    returns the DN closed with the attribute of this value; but when the
    decoder gives the empty text the attribute is dropped and the DN closed
    so far is returned, and when the text is not empty and the type before
    the [=] is empty the call fails with the error of an incomplete pair. *)
Theorem ParseDN_hexstring_value
  (dec : BERDecoder) (str : string) (n : nat) (st : locals)
  (rawBER : string) (packet : Packet) :
  stateAfter dec str n = Some st ->
  i st + 1 < String.length str ->
  escaping st = false ->
  byteAt str (i st) = "="%char ->
  byteAt str (i st + 1) = "#"%char ->
  IndexAny (sliceFrom str (i st + 2)) ",+" = (-1)%Z ->
  DecodeString (sliceFrom str (i st + 2)) = inr rawBER ->
  dec rawBER = Some packet ->
  ParseDN dec str =
    Some (if 0 <? String.length (Data packet)
          then if String.length (token st) =? 0
               then Error ErrIncomplete
               else Ok (mkDN (RDNs (dn st) ++
                              [mkRDN (Attributes (rdn st) ++
                                      [atv (token st) (Data packet)])]))
          else Ok (dn st)).
Proof.
  intros Hst Hlt Hesc Heq Hsharp Hindex Hhex Hdec.
  assert (Hspan : hexSpan str (i st + 2) = sliceFrom str (i st + 2))
    by (unfold hexSpan; rewrite Hindex; reflexivity).
  assert (Hlen : String.length (sliceFrom str (i st + 2)) =
                 String.length str - (i st + 2))
    by (unfold sliceFrom; apply length_substring; lia).
  pose proof (body_hexstring dec str st (stateAfter_counter_ok _ _ n st Hst)
                Hlt Hesc Heq Hsharp) as Hbody.
  rewrite Hspan, Hhex, Hdec, Hlen in Hbody.
  pose proof (stateAfter_step dec str n st _ Hst ltac:(lia) Hbody) as Hnext.
  rewrite (stateAfter_finish dec str (S n) _ Hnext)
    by (unfold incr; simpl; lia).
  unfold finish, incr, stringFromBuffer. simpl.
  destruct (0 <? String.length (Data packet)); [|reflexivity].
  fold (token st).
  destruct (String.length (token st) =? 0); [reflexivity|].
  unfold slice. rewrite !Nat.sub_0_r, substring_whole. reflexivity.
Qed.

(** The theorem at [CN=#4869] and at [=#4869], which has no type, the
    decoder being the one that hands the payload back. *)
Lemma ParseDN_hexstring_value_witness :
  ParseDN (fun rawBER => Some {| Data := rawBER |}) "CN=#4869" =
    Some (Ok (mkDN [mkRDN [atv "CN" "Hi"]])) /\
  ParseDN (fun rawBER => Some {| Data := rawBER |}) "=#4869" =
    Some (Error ErrIncomplete).
Proof.
  split.
  - apply (ParseDN_hexstring_value (fun rawBER => Some {| Data := rawBER |}) "CN=#4869" 2
             {| dn := mkDN []; rdn := mkRDN []; buffer := "CN";
                attribute := newAttribute;
                escaping := false; unescapedTrailingSpaces := 0; i := 2 |}
             "Hi" {| Data := "Hi" |});
      try reflexivity; simpl; lia.
  - apply (ParseDN_hexstring_value (fun rawBER => Some {| Data := rawBER |}) "=#4869" 0
             init "Hi" {| Data := "Hi" |});
      try reflexivity; simpl; lia.
Defined.

(** *** The rest of an input, parsed on its own *)

Section Suffix.

Variable DecodePacket : BERDecoder.
Variables (p s : string).
Variable D : list RelativeDN.
Variable A : list AttributeTypeAndValue.

Lemma substring_append_right (m : nat) :
  forall j, substring (String.length p + j) m (p ++ s) = substring j m s.
Proof.
  induction p as [|c q IH]; intros j; simpl; [reflexivity|]. apply IH.
Qed.

Lemma byteAt_suffix (k : nat) : byteAt (p ++ s) (String.length p + k) = byteAt s k.
Proof.
  unfold byteAt. rewrite get_append_right. reflexivity.
Qed.

Lemma slice_suffix (a b : nat) :
  slice (p ++ s) (String.length p + a) (String.length p + b) = slice s a b.
Proof.
  unfold slice.
  replace (String.length p + b - (String.length p + a)) with (b - a) by lia.
  apply substring_append_right.
Qed.

Lemma sliceFrom_suffix (a : nat) :
  sliceFrom (p ++ s) (String.length p + a) = sliceFrom s a.
Proof.
  unfold sliceFrom. rewrite length_append.
  replace (String.length p + String.length s - (String.length p + a))
    with (String.length s - a) by lia.
  apply substring_append_right.
Qed.

Lemma hexSpan_suffix (a : nat) :
  hexSpan (p ++ s) (String.length p + a) = hexSpan s a.
Proof.
  unfold hexSpan. rewrite sliceFrom_suffix.
  destruct (0 <? IndexAny (sliceFrom s a) ",+")%Z; [|reflexivity].
  rewrite <- Nat.add_assoc. apply slice_suffix.
Qed.

Lemma escaped_embed (char : ascii) (st : locals) :
  escaped (p ++ s) char (embed (String.length p) D A st) =
  embed_control (String.length p) D A (escaped s char st).
Proof.
  unfold escaped. simpl.
  destruct (isSpecial char); [reflexivity|].
  rewrite length_append.
  replace (String.length p + String.length s =? String.length p + i st + 1)
    with (String.length s =? i st + 1)
    by (destruct (Nat.eqb_spec (String.length s) (i st + 1));
        symmetry; [apply Nat.eqb_eq|apply Nat.eqb_neq]; lia).
  destruct (String.length s =? i st + 1); [reflexivity|].
  rewrite <- (Nat.add_assoc (String.length p) (i st) 2), slice_suffix.
  destruct (Decode (slice s (i st) (i st + 2))) as [err|decoded]; [reflexivity|].
  destruct (negb (String.length decoded =? 1)); [reflexivity|].
  simpl. unfold embed, set_i, set_buffer. simpl.
  rewrite Nat.add_assoc. reflexivity.
Qed.

Lemma equals_embed (st : locals) :
  equals DecodePacket (p ++ s) (embed (String.length p) D A st) =
  embed_control (String.length p) D A (equals DecodePacket s st).
Proof.
  unfold equals, stringFromBuffer. simpl.
  destruct (unescapedTrailingSpaces st <=? String.length (buffer st));
    [|reflexivity].
  simpl. rewrite length_append.
  rewrite <- (Nat.add_assoc (String.length p) (i st) 1), byteAt_suffix.
  replace (String.length p + (i st + 1) <? String.length p + String.length s)
    with (i st + 1 <? String.length s)
    by (destruct (Nat.ltb_spec (i st + 1) (String.length s));
        symmetry; [apply Nat.ltb_lt|apply Nat.ltb_ge]; lia).
  destruct ((i st + 1 <? String.length s) && Ascii.eqb (byteAt s (i st + 1)) "#");
    [|reflexivity].
  rewrite <- (Nat.add_assoc (String.length p) (i st) 2), hexSpan_suffix.
  destruct (DecodeString (hexSpan s (i st + 2))) as [err|rawBER]; [reflexivity|].
  destruct (DecodePacket rawBER) as [packet|]; [|reflexivity].
  simpl. unfold embed, set_i, set_buffer, set_attribute. simpl.
  do 2 f_equal. lia.
Qed.

Lemma locals_ext (st1 st2 : locals) :
  dn st1 = dn st2 -> rdn st1 = rdn st2 -> buffer st1 = buffer st2 ->
  attribute st1 = attribute st2 -> escaping st1 = escaping st2 ->
  unescapedTrailingSpaces st1 = unescapedTrailingSpaces st2 -> i st1 = i st2 ->
  st1 = st2.
Proof.
  destruct st1, st2; simpl; intros; subst; reflexivity.
Qed.

Lemma delimiter_embed (char : ascii) (st : locals) :
  delimiter char (embed (String.length p) D A st) =
  embed_control (String.length p) D A (delimiter char st).
Proof.
  unfold delimiter.
  destruct (Ascii.eqb char ","); unfold stringFromBuffer;
    change (unescapedTrailingSpaces (embed (String.length p) D A st))
      with (unescapedTrailingSpaces st);
    change (buffer (embed (String.length p) D A st)) with (buffer st);
    destruct (unescapedTrailingSpaces st <=? String.length (buffer st));
    try reflexivity;
    cbv beta iota zeta; unfold embed_control; f_equal;
    apply locals_ext; try reflexivity; simpl;
    unfold graftRDNs, mkRDN, mkDN;
    destruct (RDNs (dn st)) as [|r rs]; simpl; rewrite <- ?app_assoc; reflexivity.
Qed.

Lemma body_embed (st : locals) :
  body DecodePacket (p ++ s) (embed (String.length p) D A st) =
  embed_control (String.length p) D A (body DecodePacket s st).
Proof.
  unfold body. simpl. rewrite byteAt_suffix.
  destruct (escaping st); [apply escaped_embed|].
  destruct (Ascii.eqb (byteAt s (i st)) "\"); [reflexivity|].
  destruct (Ascii.eqb (byteAt s (i st)) "="); [apply equals_embed|].
  destruct (Ascii.eqb (byteAt s (i st)) "," || Ascii.eqb (byteAt s (i st)) "+");
    [apply delimiter_embed|].
  destruct (Ascii.eqb (byteAt s (i st)) " " && (String.length (buffer st) =? 0));
    [reflexivity|].
  unfold ordinary. destruct (Ascii.eqb (byteAt s (i st)) " "); reflexivity.
Qed.

Lemma finish_embed (st : locals) :
  finish (embed (String.length p) D A st) = graft D A (finish st).
Proof.
  unfold finish, stringFromBuffer. simpl.
  destruct (0 <? String.length (buffer st)); [|reflexivity].
  destruct (String.length (Type' (attribute st)) =? 0); [reflexivity|].
  destruct (unescapedTrailingSpaces st <=? String.length (buffer st));
    [|reflexivity].
  simpl. unfold graftRDNs, mkRDN, mkDN.
  destruct (RDNs (dn st)) as [|r rs]; simpl; rewrite <- ?app_assoc; reflexivity.
Qed.

Lemma embed_incr (st : locals) :
  incr (embed (String.length p) D A st) = embed (String.length p) D A (incr st).
Proof.
  unfold incr, embed, set_i. simpl. rewrite Nat.add_assoc. reflexivity.
Qed.

(** An iteration returns errors and panics, never a DN. *)
Lemma body_returns_no_DN (str : string) (st : locals) (r : result) :
  body DecodePacket str st = Return r -> graft D A r = r.
Proof.
  intros H. body_cases H; inversion H; reflexivity.
Qed.

Lemma loop_unfold (str : string) (fuel : nat) (st : locals) :
  loop DecodePacket str fuel st =
    if String.length str <=? i st then Some (finish st)
    else
      match fuel with
      | 0 => None
      | S fuel' =>
          match body DecodePacket str st with
          | Return r => Some r
          | Next st' => loop DecodePacket str fuel' (incr st')
          end
      end.
Proof.
  destruct fuel; reflexivity.
Qed.

(** The run on [p ++ s] from the locals that go with [st] is the run on [s]
    from [st], its DN put after [D] and [A]. *)
Lemma loop_embed (fuel : nat) :
  forall st,
    loop DecodePacket (p ++ s) fuel (embed (String.length p) D A st) =
    option_map (graft D A) (loop DecodePacket s fuel st).
Proof.
  assert (Hend : forall st,
             (String.length (p ++ s) <=? i (embed (String.length p) D A st)) =
             (String.length s <=? i st)).
  { intros st. rewrite length_append. simpl.
    destruct (Nat.leb_spec (String.length s) (i st));
      [apply Nat.leb_le|apply Nat.leb_gt]; lia. }
  induction fuel as [|fuel IH]; intros st;
    rewrite (loop_unfold (p ++ s)), (loop_unfold s), Hend.
  - destruct (String.length s <=? i st); [|reflexivity].
    rewrite finish_embed. reflexivity.
  - destruct (String.length s <=? i st).
    + rewrite finish_embed. reflexivity.
    + rewrite body_embed.
      destruct (body DecodePacket s st) as [st'|r] eqn:Hbody.
      * unfold embed_control. rewrite embed_incr. apply IH.
      * unfold embed_control, option_map.
        rewrite (body_returns_no_DN s st r Hbody). reflexivity.
Qed.

End Suffix.

(** The run of [p ++ s], once the scan stands at the end of [p] with an
    empty buffer and a new attribute, is the run of [s] alone. *)
Lemma ParseDN_resume_at (dec : BERDecoder) (p s : string) (n : nat)
  (D : list RelativeDN) (A : list AttributeTypeAndValue) :
  stateAfter dec (p ++ s) n =
    Some {| dn := mkDN D; rdn := mkRDN A; buffer := "";
            attribute := newAttribute;
            escaping := false; unescapedTrailingSpaces := 0;
            i := String.length p |} ->
  ParseDN dec (p ++ s) = option_map (graft D A) (ParseDN dec s).
Proof.
  intros Hst.
  assert (Hinit : {| dn := mkDN D; rdn := mkRDN A; buffer := "";
                     attribute := newAttribute;
                     escaping := false; unescapedTrailingSpaces := 0;
                     i := String.length p |} = embed (String.length p) D A init).
  { unfold embed, init. simpl. rewrite app_nil_r, Nat.add_0_r. reflexivity. }
  rewrite Hinit in Hst.
  rewrite (stateAfter_resume dec (p ++ s) n _ Hst (String.length s))
    by (rewrite length_append; simpl; lia).
  apply loop_embed.
Qed.

(** X9: when the scan has read a part [p] of the input and stands after it
    with an empty buffer and a new attribute, as it does after an unescaped
    [,] or [+], the call gives what it gives on the rest [s] of the input
    alone: the same error or panic, or the DN of [s] after the RelativeDNs
    [D] closed in [p], the attributes [A] left open in [p] going in front of
    the first RelativeDN of [s]. *)
Theorem ParseDN_resumes (dec : BERDecoder) (p s : string) (n : nat)
  (D : list RelativeDN) (A : list AttributeTypeAndValue) :
  stateAfter dec (p ++ s) n =
    Some {| dn := mkDN D; rdn := mkRDN A; buffer := "";
            attribute := newAttribute;
            escaping := false; unescapedTrailingSpaces := 0;
            i := String.length p |} ->
  ParseDN dec (p ++ s) = option_map (graft D A) (ParseDN dec s).
Proof.
  exact (ParseDN_resume_at dec p s n D A).
Qed.

(** The theorem at [CN=James,] followed by [OU=Sales+CN=J. Smith]. *)
Lemma ParseDN_resumes_witness :
  ParseDN rejectAll ("CN=James," ++ "OU=Sales+CN=J. Smith") =
    option_map (graft [mkRDN [atv "CN" "James"]] [])
      (ParseDN rejectAll "OU=Sales+CN=J. Smith").
Proof.
  exact (ParseDN_resumes rejectAll "CN=James," "OU=Sales+CN=J. Smith" 9
           [mkRDN [atv "CN" "James"]] [] eq_refl).
Defined.

(** *** Spaces before the input *)

Lemma length_spaces (k : nat) : String.length (spaces k) = k.
Proof.
  induction k as [|k IH]; simpl; [reflexivity|]. rewrite IH. reflexivity.
Qed.

Lemma get_spaces (k : nat) :
  forall j, j < k -> String.get j (spaces k) = Some " "%char.
Proof.
  induction k as [|k IH]; intros j Hj; [lia|].
  destruct j as [|j]; simpl; [reflexivity|]. apply IH. lia.
Qed.

(** Unescaped spaces met with an empty buffer change nothing but the
    position. *)
Lemma stateAfter_leading_spaces (dec : BERDecoder) (str : string) (n : nat) (st : locals) :
  stateAfter dec str n = Some st ->
  escaping st = false ->
  buffer st = "" ->
  forall k, i st + k <= String.length str ->
    (forall j, j < k -> byteAt str (i st + j) = " "%char) ->
    stateAfter dec str (k + n) = Some (set_i st (i st + k)).
Proof.
  intros Hst Hesc Hbuf. induction k as [|k IH]; intros Hlen Hsp.
  - simpl. rewrite Hst. f_equal. destruct st; unfold set_i; simpl.
    rewrite Nat.add_0_r. reflexivity.
  - assert (Hprev := IH ltac:(lia) ltac:(intros j Hj; apply Hsp; lia)).
    assert (Hbody : body dec str (set_i st (i st + k)) = Next (set_i st (i st + k))).
    { unfold body. simpl. rewrite Hesc, (Hsp k ltac:(lia)), Hbuf. reflexivity. }
    replace (S k + n) with (S (k + n)) by lia.
    rewrite (stateAfter_step dec str (k + n) _ _ Hprev ltac:(simpl; lia) Hbody).
    unfold incr, set_i. simpl. do 2 f_equal. lia.
Qed.

Lemma graft_nothing (r : result) : graft [] [] r = r.
Proof.
  destruct r as [[l]| |]; try reflexivity.
  destruct l as [|[a] rs]; reflexivity.
Qed.

(** X10: unescaped spaces in front of the input are ignored: [ParseDN]
    gives on [k] spaces followed by [s] what it gives on [s]. *)
Theorem ParseDN_ignores_leading_spaces (dec : BERDecoder) (k : nat) (s : string) :
  ParseDN dec (spaces k ++ s) = ParseDN dec s.
Proof.
  assert (Hst : stateAfter dec (spaces k ++ s) (k + 0) = Some (set_i init (i init + k))).
  { apply (stateAfter_leading_spaces dec (spaces k ++ s) 0 init); try reflexivity.
    - rewrite length_append, length_spaces. simpl. lia.
    - intros j Hj. unfold byteAt. simpl.
      rewrite get_append_left by (rewrite length_spaces; exact Hj).
      rewrite get_spaces by exact Hj. reflexivity. }
  rewrite (ParseDN_resume_at dec (spaces k) s (k + 0) [] []).
  - destruct (ParseDN dec s) as [r|]; simpl; [|reflexivity].
    rewrite graft_nothing. reflexivity.
  - rewrite Hst, length_spaces. reflexivity.
Qed.

(** *** Words *)

Lemma get_Some_lt (s : string) :
  forall k c, String.get k s = Some c -> k < String.length s.
Proof.
  induction s as [|d s IH]; intros k c H; simpl in *; [discriminate|].
  destruct k as [|k]; [lia|]. apply IH in H. lia.
Qed.

Lemma append_assoc_string (a b c : string) : (a ++ b) ++ c = a ++ (b ++ c).
Proof.
  induction a as [|x a IH]; simpl; [reflexivity|]. rewrite IH. reflexivity.
Qed.

Lemma append_empty_r (a : string) : a ++ "" = a.
Proof.
  induction a as [|x a IH]; simpl; [reflexivity|]. rewrite IH. reflexivity.
Qed.

Lemma wordByte_not_special (c : ascii) :
  wordByte c = true ->
  Ascii.eqb c "\" = false /\ Ascii.eqb c "=" = false /\ Ascii.eqb c "," = false /\
  Ascii.eqb c "+" = false /\ Ascii.eqb c "#" = false.
Proof.
  unfold wordByte. simpl.
  destruct (Ascii.eqb c "\"), (Ascii.eqb c "="), (Ascii.eqb c ","),
    (Ascii.eqb c "+"), (Ascii.eqb c "#"); simpl; intros H;
    try discriminate; repeat split.
Qed.

(** The iteration at such a byte, when it is not a space before a token. *)
Lemma body_wordByte (dec : BERDecoder) (str : string) (st : locals) (c : ascii) :
  escaping st = false ->
  byteAt str (i st) = c ->
  wordByte c = true ->
  0 < String.length (buffer st) \/ Ascii.eqb c " " = false ->
  body dec str st =
    Next {| dn := dn st; rdn := rdn st;
            buffer := buffer st ++ String c EmptyString;
            attribute := attribute st; escaping := false;
            unescapedTrailingSpaces :=
              if Ascii.eqb c " " then unescapedTrailingSpaces st + 1 else 0;
            i := i st |}.
Proof.
  intros Hesc Hc Hword Hlead.
  destruct (wordByte_not_special c Hword) as (H1 & H2 & H3 & H4 & _).
  unfold body, ordinary. rewrite Hesc, Hc, H1, H2, H3, H4. simpl.
  assert (Hnolead : Ascii.eqb c " " && (String.length (buffer st) =? 0) = false).
  { destruct Hlead as [Hbuf|Hsp].
    - destruct (String.length (buffer st)); [lia|]. apply andb_false_r.
    - rewrite Hsp. reflexivity. }
  rewrite Hnolead.
  destruct (Ascii.eqb c " "); unfold set_buffer, set_unescapedTrailingSpaces, WriteByte;
    simpl; rewrite Hesc; reflexivity.
Qed.

(** Through a text of such bytes the scan goes one byte per iteration and
    appends each byte to the buffer; the counter is 0 afterwards when the
    text does not end in a space. *)
Lemma stateAfter_word (dec : BERDecoder) (str : string) (w : string) :
  forall n st,
    stateAfter dec str n = Some st ->
    escaping st = false ->
    wordBytes w = true ->
    0 < String.length (buffer st) \/ startsNonSpace w = true ->
    (forall j, j < String.length w -> String.get (i st + j) str = String.get j w) ->
    exists st',
      stateAfter dec str (String.length w + n) = Some st' /\
      dn st' = dn st /\ rdn st' = rdn st /\ attribute st' = attribute st /\
      escaping st' = false /\ buffer st' = buffer st ++ w /\
      i st' = i st + String.length w /\
      (endsNonSpace w = true -> unescapedTrailingSpaces st' = 0).
Proof.
  induction w as [|c w IH]; intros n st Hst Hesc Hword Hlead Hget.
  - exists st. simpl. rewrite append_empty_r, Nat.add_0_r.
    repeat split; auto. discriminate.
  - simpl in Hword. apply andb_prop in Hword. destruct Hword as [Hc Hw].
    assert (Hat : String.get (i st) str = Some c).
    { rewrite <- (Nat.add_0_r (i st)). rewrite (Hget 0); simpl; [reflexivity|lia]. }
    assert (Hlt : i st < String.length str) by (apply (get_Some_lt str _ c Hat)).
    assert (Hbyte : byteAt str (i st) = c) by (unfold byteAt; rewrite Hat; reflexivity).
    assert (Hlead' : 0 < String.length (buffer st) \/ Ascii.eqb c " " = false).
    { destruct Hlead as [H|H]; [left; exact H|right].
      simpl in H. destruct (Ascii.eqb c " "); [discriminate|reflexivity]. }
    pose proof (body_wordByte dec str st c Hesc Hbyte Hc Hlead') as Hbody.
    pose proof (stateAfter_step dec str n st _ Hst Hlt Hbody) as Hnext.
    destruct (IH (S n) _ Hnext) as (st' & Hst' & Hdn & Hrdn & Hattr & Hesc' & Hbuf & Hi & Hcnt).
    + reflexivity.
    + exact Hw.
    + left. unfold incr. simpl. rewrite length_append. simpl. lia.
    + intros j Hj. unfold incr. simpl.
      replace (i st + 1 + j) with (i st + S j) by lia.
      rewrite (Hget (S j)); simpl; [reflexivity|lia].
    + exists st'.
      replace (String.length (String c w) + n) with (String.length w + S n)
        by (simpl; lia).
      unfold incr in Hdn, Hrdn, Hattr, Hbuf, Hi.
      simpl in Hdn, Hrdn, Hattr, Hbuf, Hi.
      repeat split; try assumption.
      * rewrite Hbuf, append_assoc_string. reflexivity.
      * simpl. lia.
      * intros Hend. destruct w as [|d w].
        -- change (stateAfter dec str (S n) = Some st') in Hst'.
           rewrite Hnext in Hst'. injection Hst' as Heq. rewrite <- Heq.
           unfold incr. simpl. simpl in Hend.
           destruct (Ascii.eqb c " "); [discriminate|reflexivity].
        -- apply Hcnt. exact Hend.
Qed.

Lemma word_parts (w : string) :
  word w = true ->
  wordBytes w = true /\ startsNonSpace w = true /\ endsNonSpace w = true.
Proof.
  unfold word. intros H.
  apply andb_prop in H. destruct H as [H H3].
  apply andb_prop in H. destruct H as [H1 H2]. auto.
Qed.

Lemma word_head (w : string) :
  word w = true ->
  exists c w', w = String c w' /\ Ascii.eqb c "#" = false.
Proof.
  intros H. destruct (word_parts w H) as (Hb & Hs & _).
  destruct w as [|c w']; [discriminate|].
  exists c, w'. split; [reflexivity|].
  simpl in Hb. apply andb_prop in Hb. destruct Hb as [Hc _].
  apply (wordByte_not_special c Hc).
Qed.

Lemma locals_eq (st : locals) (d : DN) (r : RelativeDN) (b : string)
  (a : AttributeTypeAndValue) (e : bool) (u k : nat) :
  dn st = d -> rdn st = r -> buffer st = b -> attribute st = a ->
  escaping st = e -> unescapedTrailingSpaces st = u -> i st = k ->
  st = {| dn := d; rdn := r; buffer := b; attribute := a; escaping := e;
          unescapedTrailingSpaces := u; i := k |}.
Proof.
  destruct st; simpl; intros; subst; reflexivity.
Qed.

(** The scan of [type=value...], type and value being words, stands after
    the value with the type set and the value in the buffer. *)
Lemma stateAfter_pair (dec : BERDecoder) (t v rest : string) :
  word t = true ->
  word v = true ->
  exists n,
    stateAfter dec (t ++ String "=" (v ++ rest)) n =
      Some {| dn := mkDN []; rdn := mkRDN []; buffer := v;
              attribute := atv t "";
              escaping := false; unescapedTrailingSpaces := 0;
              i := String.length t + 1 + String.length v |}.
Proof.
  intros Ht Hv. set (str := t ++ String "=" (v ++ rest)).
  destruct (word_parts t Ht) as (Htb & Hts & Hte).
  destruct (word_parts v Hv) as (Hvb & Hvs & Hve).
  (* the type *)
  destruct (stateAfter_word dec str t 0 init eq_refl eq_refl Htb (or_intror Hts))
    as (st1 & Hst1 & Hdn1 & Hrdn1 & Hattr1 & Hesc1 & Hbuf1 & Hi1 & Hcnt1).
  { intros j Hj. simpl. unfold str. apply get_append_left. exact Hj. }
  simpl in Hdn1, Hrdn1, Hattr1, Hbuf1, Hi1. specialize (Hcnt1 Hte).
  (* the [=] *)
  assert (Heq : byteAt str (i st1) = "="%char).
  { unfold byteAt, str. rewrite Hi1.
    replace (String.length t) with (String.length t + 0) at 1 by lia.
    rewrite get_append_right. reflexivity. }
  assert (Hnosharp : (i st1 + 1 <? String.length str) &&
                     Ascii.eqb (byteAt str (i st1 + 1)) "#" = false).
  { destruct (word_head v Hv) as (c & v' & -> & Hc).
    unfold byteAt, str. rewrite Hi1, get_append_right. simpl.
    rewrite Hc. apply andb_false_r. }
  assert (Hlt1 : i st1 < String.length str).
  { unfold str. rewrite length_append, Hi1. simpl. lia. }
  pose proof (stateAfter_step dec str _ st1 _ Hst1 Hlt1
                (body_equals_plain dec str st1
                   (stateAfter_counter_ok _ _ _ st1 Hst1) Hesc1 Heq Hnosharp)) as Hst2.
  (* the value *)
  destruct (stateAfter_word dec str v _ _ Hst2 eq_refl Hvb (or_intror Hvs))
    as (st3 & Hst3 & Hdn3 & Hrdn3 & Hattr3 & Hesc3 & Hbuf3 & Hi3 & Hcnt3).
  { intros j Hj. unfold incr. simpl. unfold str. rewrite Hi1.
    replace (String.length t + 1 + j) with (String.length t + S j) by lia.
    rewrite get_append_right. simpl. apply get_append_left. exact Hj. }
  unfold incr in Hdn3, Hrdn3, Hattr3, Hbuf3, Hi3.
  simpl in Hdn3, Hrdn3, Hattr3, Hbuf3, Hi3. specialize (Hcnt3 Hve).
  eexists. rewrite Hst3. f_equal.
  unfold mkDN, mkRDN, atv, newRelativeDN in *.
  apply locals_eq; try congruence.
  rewrite Hattr3. unfold token, slice.
  rewrite Hbuf1, Hcnt1, Hattr1, !Nat.sub_0_r, substring_whole. reflexivity.
Qed.

Lemma word_length (w : string) : word w = true -> 0 < String.length w.
Proof.
  intros H. destruct (word_head w H) as (c & w' & -> & _). simpl. lia.
Qed.

Lemma token_whole (st : locals) :
  unescapedTrailingSpaces st = 0 -> token st = buffer st.
Proof.
  intros H. unfold token, slice. rewrite H, !Nat.sub_0_r. apply substring_whole.
Qed.

(** [type=value] alone. *)
Lemma ParseDN_pair (dec : BERDecoder) (t v : string) :
  word t = true ->
  word v = true ->
  ParseDN dec (t ++ "=" ++ v) = Some (Ok (mkDN [mkRDN [atv t v]])).
Proof.
  intros Ht Hv.
  destruct (stateAfter_pair dec t v "" Ht Hv) as [n Hst].
  rewrite append_empty_r in Hst.
  change (t ++ "=" ++ v) with (t ++ String "=" v).
  rewrite (stateAfter_finish dec _ n _ Hst)
    by (rewrite length_append; simpl; lia).
  pose proof (word_length t Ht). pose proof (word_length v Hv).
  rewrite finish_value; simpl; try assumption.
  - rewrite token_whole by reflexivity. reflexivity.
  - unfold counter_ok. simpl. lia.
Qed.

Lemma pair_split (t v : string) (c : ascii) (s : string) :
  t ++ String "=" (v ++ String c s) = (t ++ String "=" (v ++ String c "")) ++ s.
Proof.
  rewrite append_assoc_string. simpl. rewrite append_assoc_string. reflexivity.
Qed.

Lemma pair_length (t v : string) (c : ascii) :
  String.length (t ++ String "=" (v ++ String c "")) =
  String.length t + 1 + String.length v + 1.
Proof.
  rewrite length_append. simpl. rewrite length_append. simpl. lia.
Qed.

Lemma pair_delimiter_at (t v : string) (c : ascii) (s : string) :
  byteAt (t ++ String "=" (v ++ String c s))
         (String.length t + 1 + String.length v) = c.
Proof.
  unfold byteAt.
  replace (String.length t + 1 + String.length v)
    with (String.length t + S (String.length v)) by lia.
  rewrite get_append_right. simpl.
  replace (String.length v) with (String.length v + 0) by lia.
  rewrite get_append_right. reflexivity.
Qed.

(** [type=value,] and then more. *)
Lemma ParseDN_pair_comma (dec : BERDecoder) (t v s : string) :
  word t = true ->
  word v = true ->
  ParseDN dec (t ++ "=" ++ v ++ "," ++ s) =
    option_map (graft [mkRDN [atv t v]] []) (ParseDN dec s).
Proof.
  intros Ht Hv.
  destruct (stateAfter_pair dec t v (String "," s) Ht Hv) as [n Hst].
  change (t ++ "=" ++ v ++ "," ++ s) with (t ++ String "=" (v ++ String "," s)).
  set (str := t ++ String "=" (v ++ String "," s)) in *.
  assert (Hlen : String.length str = String.length t + 1 + String.length v + 1 +
                                     String.length s).
  { unfold str. rewrite pair_split, length_append, pair_length. reflexivity. }
  assert (Hnext : stateAfter dec str (S n) =
                  Some {| dn := mkDN [mkRDN [atv t v]]; rdn := mkRDN []; buffer := "";
                          attribute := newAttribute;
                          escaping := false; unescapedTrailingSpaces := 0;
                          i := String.length t + 1 + String.length v + 1 |}).
  { rewrite (stateAfter_step dec str n _ _ Hst ltac:(simpl; lia)
               (body_comma dec str _ (stateAfter_counter_ok _ _ n _ Hst) eq_refl
                  (pair_delimiter_at t v "," s))).
    unfold incr. simpl. rewrite token_whole by reflexivity. reflexivity. }
  unfold str in *. rewrite pair_split in *.
  apply (ParseDN_resume_at dec _ s (S n)).
  rewrite Hnext, pair_length. reflexivity.
Qed.

(** [type=value+] and then more. *)
Lemma ParseDN_pair_plus (dec : BERDecoder) (t v s : string) :
  word t = true ->
  word v = true ->
  ParseDN dec (t ++ "=" ++ v ++ "+" ++ s) =
    option_map (graft [] [atv t v]) (ParseDN dec s).
Proof.
  intros Ht Hv.
  destruct (stateAfter_pair dec t v (String "+" s) Ht Hv) as [n Hst].
  change (t ++ "=" ++ v ++ "+" ++ s) with (t ++ String "=" (v ++ String "+" s)).
  set (str := t ++ String "=" (v ++ String "+" s)) in *.
  assert (Hlen : String.length str = String.length t + 1 + String.length v + 1 +
                                     String.length s).
  { unfold str. rewrite pair_split, length_append, pair_length. reflexivity. }
  assert (Hnext : stateAfter dec str (S n) =
                  Some {| dn := mkDN []; rdn := mkRDN [atv t v]; buffer := "";
                          attribute := newAttribute;
                          escaping := false; unescapedTrailingSpaces := 0;
                          i := String.length t + 1 + String.length v + 1 |}).
  { rewrite (stateAfter_step dec str n _ _ Hst ltac:(simpl; lia)
               (body_plus dec str _ (stateAfter_counter_ok _ _ n _ Hst) eq_refl
                  (pair_delimiter_at t v "+" s))).
    unfold incr. simpl. rewrite token_whole by reflexivity. reflexivity. }
  unfold str in *. rewrite pair_split in *.
  apply (ParseDN_resume_at dec _ s (S n)).
  rewrite Hnext, pair_length. reflexivity.
Qed.

(** X11: an input [type=value], type and value being words (no backslash,
    [=], [,], [+] or [#], not empty, no space at either end), gives the DN
    of one RelativeDN with the one attribute [(type, value)]. *)
Theorem ParseDN_type_value (dec : BERDecoder) (t v : string) :
  word t = true ->
  word v = true ->
  ParseDN dec (t ++ "=" ++ v) = Some (Ok (mkDN [mkRDN [atv t v]])).
Proof.
  exact (ParseDN_pair dec t v).
Qed.

(** The theorem at [CN=J. Smith]. *)
Lemma ParseDN_type_value_witness :
  ParseDN rejectAll ("CN" ++ "=" ++ "J. Smith") =
    Some (Ok (mkDN [mkRDN [atv "CN" "J. Smith"]])).
Proof.
  exact (ParseDN_type_value rejectAll "CN" "J. Smith" eq_refl eq_refl).
Defined.

(** X12: an unescaped comma after [type=value] closes the RelativeDN and
    the rest of the input is parsed on its own: its error or panic is the
    call's, and its DN comes after the RelativeDN of [(type, value)].  A
    comma that ends the input adds nothing. *)
Theorem ParseDN_comma_composes (dec : BERDecoder) (t v : string) :
  word t = true ->
  word v = true ->
  (forall s, ParseDN dec (t ++ "=" ++ v ++ "," ++ s) =
             option_map (graft [mkRDN [atv t v]] []) (ParseDN dec s)) /\
  ParseDN dec (t ++ "=" ++ v ++ ",") = Some (Ok (mkDN [mkRDN [atv t v]])).
Proof.
  intros Ht Hv. split.
  - intros s. exact (ParseDN_pair_comma dec t v s Ht Hv).
  - exact (ParseDN_pair_comma dec t v "" Ht Hv).
Qed.

(** The theorem at [DC=example,] followed by [DC=com] and by [=net]. *)
Lemma ParseDN_comma_composes_witness :
  ParseDN rejectAll ("DC" ++ "=" ++ "example" ++ "," ++ "DC=com") =
    Some (Ok (mkDN [mkRDN [atv "DC" "example"]; mkRDN [atv "DC" "com"]])) /\
  ParseDN rejectAll ("DC" ++ "=" ++ "example" ++ "," ++ "=net") =
    Some (Error ErrIncomplete).
Proof.
  split.
  - exact (proj1 (ParseDN_comma_composes rejectAll "DC" "example" eq_refl eq_refl)
             "DC=com").
  - exact (proj1 (ParseDN_comma_composes rejectAll "DC" "example" eq_refl eq_refl)
             "=net").
Defined.

(** X13: an unescaped [+] after [type=value] keeps the RelativeDN open and
    the rest of the input is parsed on its own: its error or panic is the
    call's, and [(type, value)] goes in front of the first RelativeDN of its
    DN.  When the rest gives no RelativeDN, as the empty rest does, the
    attribute is in no RelativeDN of the result. *)
Theorem ParseDN_plus_composes (dec : BERDecoder) (t v : string) :
  word t = true ->
  word v = true ->
  (forall s, ParseDN dec (t ++ "=" ++ v ++ "+" ++ s) =
             option_map (graft [] [atv t v]) (ParseDN dec s)) /\
  ParseDN dec (t ++ "=" ++ v ++ "+") = Some (Ok (mkDN [])).
Proof.
  intros Ht Hv. split.
  - intros s. exact (ParseDN_pair_plus dec t v s Ht Hv).
  - exact (ParseDN_pair_plus dec t v "" Ht Hv).
Qed.

(** The theorem at [OU=Sales+] followed by [CN=J. Smith,DC=net]. *)
Lemma ParseDN_plus_composes_witness :
  ParseDN rejectAll ("OU" ++ "=" ++ "Sales" ++ "+" ++ "CN=J. Smith,DC=net") =
    Some (Ok (mkDN [mkRDN [atv "OU" "Sales"; atv "CN" "J. Smith"];
                    mkRDN [atv "DC" "net"]])).
Proof.
  exact (proj1 (ParseDN_plus_composes rejectAll "OU" "Sales" eq_refl eq_refl)
           "CN=J. Smith,DC=net").
Defined.

(** *** Reading back a DN written out *)

Lemma atv_eta (a : AttributeTypeAndValue) : atv (Type' a) (Value a) = a.
Proof.
  destruct a. reflexivity.
Qed.

Lemma wordy_parts (a : AttributeTypeAndValue) :
  wordy a = true -> word (Type' a) = true /\ word (Value a) = true.
Proof.
  unfold wordy. intros H. apply andb_prop in H. exact H.
Qed.

Lemma renderATV_then (a : AttributeTypeAndValue) (c : ascii) (s : string) :
  renderATV a ++ String c s = Type' a ++ String "=" (Value a ++ String c s).
Proof.
  unfold renderATV. rewrite append_assoc_string. reflexivity.
Qed.

(** One RelativeDN written out. *)
Lemma ParseDN_renderRDN (dec : BERDecoder) (r : list AttributeTypeAndValue) :
  r <> [] ->
  Forall (fun a => wordy a = true) r ->
  ParseDN dec (renderRDN r) = Some (Ok (mkDN [mkRDN r])).
Proof.
  induction r as [|a r IH]; intros Hne Hall; [contradiction|].
  inversion Hall as [|? ? Ha Hr]; subst.
  destruct (wordy_parts a Ha) as [Ht Hv].
  destruct r as [|a' r].
  - simpl. unfold renderATV. rewrite (ParseDN_pair dec _ _ Ht Hv), atv_eta. reflexivity.
  - change (renderRDN (a :: a' :: r)) with (renderATV a ++ String "+" (renderRDN (a' :: r))).
    rewrite renderATV_then.
    etransitivity; [exact (ParseDN_pair_plus dec _ _ _ Ht Hv)|].
    rewrite IH by (auto; discriminate).
    simpl. rewrite atv_eta. reflexivity.
Qed.

(** One RelativeDN written out, a comma, and an input that gives a DN with
    a RelativeDN in it. *)
Lemma ParseDN_renderRDN_comma (dec : BERDecoder) (r : list AttributeTypeAndValue) :
  r <> [] ->
  Forall (fun a => wordy a = true) r ->
  forall s r2 rs,
    ParseDN dec s = Some (Ok (mkDN (mkRDN r2 :: rs))) ->
    ParseDN dec (renderRDN r ++ String "," s) =
      Some (Ok (mkDN (mkRDN r :: mkRDN r2 :: rs))).
Proof.
  induction r as [|a r IH]; intros Hne Hall s r2 rs Hs; [contradiction|].
  inversion Hall as [|? ? Ha Hr]; subst.
  destruct (wordy_parts a Ha) as [Ht Hv].
  destruct r as [|a' r].
  - simpl renderRDN. rewrite renderATV_then.
    etransitivity; [exact (ParseDN_pair_comma dec _ _ _ Ht Hv)|].
    rewrite Hs. simpl. rewrite atv_eta. reflexivity.
  - change (renderRDN (a :: a' :: r)) with (renderATV a ++ String "+" (renderRDN (a' :: r))).
    rewrite append_assoc_string.
    change (String "+" (renderRDN (a' :: r)) ++ String "," s)
      with (String "+" (renderRDN (a' :: r) ++ String "," s)).
    rewrite renderATV_then.
    etransitivity; [exact (ParseDN_pair_plus dec _ _ _ Ht Hv)|].
    rewrite (IH ltac:(discriminate) Hr s r2 rs Hs).
    simpl. rewrite atv_eta. reflexivity.
Qed.

(** X14: [ParseDN] reads back a DN written out in the plain way: when
    every RelativeDN has an attribute and every type and value is a word,
    the text [t=v+t=v,t=v...] gives exactly these RelativeDNs and
    attributes, in this order. *)
Theorem ParseDN_render (dec : BERDecoder) (l : list (list AttributeTypeAndValue)) :
  Forall (fun r => r <> [] /\ Forall (fun a => wordy a = true) r) l ->
  ParseDN dec (render l) = Some (Ok (mkDN (map mkRDN l))).
Proof.
  induction l as [|r l IH]; intros Hall; [reflexivity|].
  inversion Hall as [|? ? [Hne Hr] Hl]; subst.
  destruct l as [|r2 l].
  - simpl. apply ParseDN_renderRDN; assumption.
  - change (render (r :: r2 :: l)) with (renderRDN r ++ String "," (render (r2 :: l))).
    apply ParseDN_renderRDN_comma; try assumption.
    apply IH. exact Hl.
Qed.

(** The theorem at the DN of [OU=Sales+CN=J. Smith,DC=example,DC=net]. *)
Lemma ParseDN_render_witness :
  ParseDN rejectAll "OU=Sales+CN=J. Smith,DC=example,DC=net" =
    Some (Ok (mkDN [mkRDN [atv "OU" "Sales"; atv "CN" "J. Smith"];
                    mkRDN [atv "DC" "example"]; mkRDN [atv "DC" "net"]])).
Proof.
  refine (ParseDN_render rejectAll
            [[atv "OU" "Sales"; atv "CN" "J. Smith"];
             [atv "DC" "example"]; [atv "DC" "net"]] _).
  repeat constructor; discriminate.
Defined.

(** *** Values with every byte escaped *)

Lemma fromHexChar_hexDigit (n : nat) :
  n < 16 -> fromHexChar (hexDigit n) = Some n /\ isSpecial (hexDigit n) = false.
Proof.
  intros H.
  do 16 (destruct n as [|n]; [split; reflexivity|]). lia.
Qed.

Lemma byte_of_digits (c : ascii) :
  ascii_of_nat (16 * (nat_of_ascii c / 16) + nat_of_ascii c mod 16) = c.
Proof.
  rewrite <- Nat.div_mod by lia. apply ascii_nat_embedding.
Qed.

Lemma nibbles_small (c : ascii) :
  nat_of_ascii c / 16 < 16 /\ nat_of_ascii c mod 16 < 16.
Proof.
  pose proof (nat_ascii_bounded c) as H. split.
  - apply Nat.Div0.div_lt_upper_bound. lia.
  - apply Nat.mod_upper_bound. lia.
Qed.

Lemma length_escapeHex (v : string) :
  String.length (escapeHex v) = 3 * String.length v.
Proof.
  induction v as [|c v IH]; simpl; [reflexivity|]. rewrite IH. lia.
Qed.

(** Through a value written in this way the scan takes two iterations per
    byte and appends the byte to the buffer. *)
Lemma stateAfter_escapeHex (dec : BERDecoder) (str : string) (v : string) :
  forall n st,
    stateAfter dec str n = Some st ->
    escaping st = false ->
    (forall j, j < String.length (escapeHex v) ->
               String.get (i st + j) str = String.get j (escapeHex v)) ->
    exists st',
      stateAfter dec str (2 * String.length v + n) = Some st' /\
      dn st' = dn st /\ rdn st' = rdn st /\ attribute st' = attribute st /\
      escaping st' = false /\ buffer st' = buffer st ++ v /\
      i st' = i st + 3 * String.length v /\
      (0 < String.length v -> unescapedTrailingSpaces st' = 0).
Proof.
  induction v as [|c v IH]; intros n st Hst Hesc Hget.
  - exists st. simpl. rewrite append_empty_r, Nat.add_0_r.
    repeat split; auto. lia.
  - destruct (nibbles_small c) as [Hhi Hlo].
    destruct (fromHexChar_hexDigit _ Hhi) as [Hhi1 Hhi2].
    destruct (fromHexChar_hexDigit _ Hlo) as [Hlo1 _].
    assert (Hlen : String.length (escapeHex (String c v)) = 3 + String.length (escapeHex v))
      by reflexivity.
    assert (H0 : String.get (i st) str = Some "\"%char).
    { rewrite <- (Nat.add_0_r (i st)), (Hget 0) by (rewrite Hlen; lia). reflexivity. }
    assert (H1 : String.get (i st + 1) str = Some (hexDigit (nat_of_ascii c / 16))).
    { rewrite (Hget 1) by (rewrite Hlen; lia). reflexivity. }
    assert (H2 : String.get (i st + 1 + 1) str = Some (hexDigit (nat_of_ascii c mod 16))).
    { replace (i st + 1 + 1) with (i st + 2) by lia.
      rewrite (Hget 2) by (rewrite Hlen; lia). reflexivity. }
    (* the backslash *)
    assert (Hbody1 : body dec str st =
                     Next (set_escaping (set_unescapedTrailingSpaces st 0) true)).
    { unfold body, byteAt. rewrite Hesc, H0. reflexivity. }
    pose proof (stateAfter_step dec str n st _ Hst (get_Some_lt str _ _ H0) Hbody1)
      as Hst1.
    set (st1 := incr (set_escaping (set_unescapedTrailingSpaces st 0) true)) in *.
    (* the two digits *)
    assert (Hbody2 := body_escaped_hexpair dec str st1 _ _
                        (get_Some_lt str _ _ H2) eq_refl
                        ltac:(unfold byteAt; simpl; rewrite H1; exact Hhi2)
                        ltac:(unfold byteAt; simpl; rewrite H1; exact Hhi1)
                        ltac:(unfold byteAt; simpl; rewrite H2; exact Hlo1)).
    rewrite byte_of_digits in Hbody2.
    pose proof (stateAfter_step dec str (S n) st1 _ Hst1
                  ltac:(pose proof (get_Some_lt str _ _ H2); simpl; lia) Hbody2)
      as Hst2.
    destruct (IH (S (S n)) _ Hst2 eq_refl)
      as (st' & Hst' & Hdn & Hrdn & Hattr & Hesc' & Hbuf & Hi & Hcnt).
    { intros j Hj. unfold incr. simpl.
      replace (i st + 1 + 1 + 1 + j) with (i st + (3 + j)) by lia.
      rewrite (Hget (3 + j)) by (rewrite Hlen; lia). reflexivity. }
    exists st'.
    replace (2 * String.length (String c v) + n)
      with (2 * String.length v + S (S n)) by (simpl; lia).
    unfold incr in Hdn, Hrdn, Hattr, Hbuf, Hi.
    simpl in Hdn, Hrdn, Hattr, Hbuf, Hi. unfold WriteByte in Hbuf.
    repeat split; try assumption.
    + rewrite Hbuf, append_assoc_string. reflexivity.
    + simpl String.length. lia.
    + intros _. destruct v as [|d v].
      * change (stateAfter dec str (S (S n)) = Some st') in Hst'.
        rewrite Hst2 in Hst'. injection Hst' as Heq. rewrite <- Heq. reflexivity.
      * apply Hcnt. simpl. lia.
Qed.

(** The scan of [type=...], the type being a word and no [#] following the
    [=], stands after the [=] with the type set and an empty buffer. *)
Lemma stateAfter_type_equals (dec : BERDecoder) (t rest : string) :
  word t = true ->
  byteAt rest 0 <> "#"%char ->
  exists n,
    stateAfter dec (t ++ String "=" rest) n =
      Some {| dn := mkDN []; rdn := mkRDN []; buffer := "";
              attribute := atv t "";
              escaping := false; unescapedTrailingSpaces := 0;
              i := String.length t + 1 |}.
Proof.
  intros Ht Hrest. set (str := t ++ String "=" rest).
  destruct (word_parts t Ht) as (Htb & Hts & Hte).
  destruct (stateAfter_word dec str t 0 init eq_refl eq_refl Htb (or_intror Hts))
    as (st1 & Hst1 & Hdn1 & Hrdn1 & Hattr1 & Hesc1 & Hbuf1 & Hi1 & Hcnt1).
  { intros j Hj. simpl. unfold str. apply get_append_left. exact Hj. }
  simpl in Hdn1, Hrdn1, Hattr1, Hbuf1, Hi1. specialize (Hcnt1 Hte).
  assert (Heq : byteAt str (i st1) = "="%char).
  { unfold byteAt, str. rewrite Hi1.
    replace (String.length t) with (String.length t + 0) at 1 by lia.
    rewrite get_append_right. reflexivity. }
  assert (Hnosharp : (i st1 + 1 <? String.length str) &&
                     Ascii.eqb (byteAt str (i st1 + 1)) "#" = false).
  { apply Ascii.eqb_neq in Hrest.
    unfold byteAt, str in *. rewrite Hi1, get_append_right. simpl.
    rewrite Hrest. apply andb_false_r. }
  assert (Hlt1 : i st1 < String.length str).
  { unfold str. rewrite length_append, Hi1. simpl. lia. }
  pose proof (stateAfter_step dec str _ st1 _ Hst1 Hlt1
                (body_equals_plain dec str st1
                   (stateAfter_counter_ok _ _ _ st1 Hst1) Hesc1 Heq Hnosharp)) as Hst2.
  eexists. rewrite Hst2. f_equal. unfold incr. simpl.
  rewrite token_whole by exact Hcnt1.
  unfold mkDN, mkRDN, atv, newRelativeDN in *.
  rewrite Hdn1, Hrdn1, Hattr1, Hbuf1, Hi1. reflexivity.
Qed.

(** X15: every text of bytes, escaped byte by byte as a backslash and two
    hexadecimal digits, is read back as the value it stands for: spaces at
    its ends, delimiters, backslashes and all.  The text must not be empty,
    and the type is a word. *)
Theorem ParseDN_escapeHex (dec : BERDecoder) (t v : string) :
  word t = true ->
  0 < String.length v ->
  ParseDN dec (t ++ "=" ++ escapeHex v) = Some (Ok (mkDN [mkRDN [atv t v]])).
Proof.
  intros Ht Hv.
  change (t ++ "=" ++ escapeHex v) with (t ++ String "=" (escapeHex v)).
  destruct (stateAfter_type_equals dec t (escapeHex v) Ht) as [n Hst].
  { destruct v as [|c v]; [simpl in Hv; lia|]. discriminate. }
  set (str := t ++ String "=" (escapeHex v)) in *.
  destruct (stateAfter_escapeHex dec str v n _ Hst eq_refl)
    as (st' & Hst' & Hdn & Hrdn & Hattr & Hesc & Hbuf & Hi & Hcnt).
  { intros j Hj. simpl. unfold str.
    replace (String.length t + 1 + j) with (String.length t + S j) by lia.
    rewrite get_append_right. reflexivity. }
  simpl in Hdn, Hrdn, Hattr, Hbuf, Hi. specialize (Hcnt Hv).
  rewrite (stateAfter_finish dec str _ st' Hst')
    by (unfold str; rewrite length_append, Hi; simpl; rewrite length_escapeHex; lia).
  pose proof (word_length t Ht).
  rewrite finish_value.
  - rewrite token_whole by exact Hcnt. unfold closed.
    rewrite Hdn, Hrdn, Hattr, Hbuf. reflexivity.
  - unfold counter_ok. rewrite Hcnt. lia.
  - rewrite Hbuf. exact Hv.
  - rewrite Hattr. simpl. assumption.
Qed.

(** The theorem at the value [ a,b ] (space, a, comma, b, space). *)
Lemma ParseDN_escapeHex_witness :
  ParseDN rejectAll "CN=\20\61\2C\62\20" = Some (Ok (mkDN [mkRDN [atv "CN" " a,b "]])).
Proof.
  exact (ParseDN_escapeHex rejectAll "CN" " a,b " eq_refl (Nat.lt_0_succ 4)).
Defined.

(** X16: a word alone, with no [=] after it, is an incomplete pair. *)
Theorem ParseDN_word_alone (dec : BERDecoder) (w : string) :
  word w = true ->
  ParseDN dec w = Some (Error ErrIncomplete).
Proof.
  intros Hw. destruct (word_parts w Hw) as (Hb & Hs & He).
  destruct (stateAfter_word dec w w 0 init eq_refl eq_refl Hb (or_intror Hs))
    as (st' & Hst' & _ & _ & Hattr & _ & Hbuf & Hi & _).
  { intros j _. reflexivity. }
  simpl in Hattr, Hbuf, Hi.
  rewrite (stateAfter_finish dec w _ st' Hst') by lia.
  unfold finish. rewrite Hbuf, Hattr.
  pose proof (word_length w Hw) as Hlen. apply Nat.ltb_lt in Hlen.
  rewrite Hlen. reflexivity.
Qed.

(** The theorem at [DC 1]. *)
Lemma ParseDN_word_alone_witness :
  ParseDN rejectAll "DC 1" = Some (Error ErrIncomplete).
Proof.
  exact (ParseDN_word_alone rejectAll "DC 1" eq_refl).
Defined.

(** X17: an empty value.  Before an unescaped comma it gives an attribute
    with the empty value, and the rest of the input is parsed on its own; at
    the end of the input it gives no attribute at all. *)
Theorem ParseDN_empty_value (dec : BERDecoder) (t : string) :
  word t = true ->
  (forall s, ParseDN dec (t ++ "=," ++ s) =
             option_map (graft [mkRDN [atv t ""]] []) (ParseDN dec s)) /\
  ParseDN dec (t ++ "=") = Some (Ok (mkDN [])).
Proof.
  intros Ht. split.
  - intros s.
    change (t ++ "=," ++ s) with (t ++ String "=" (String "," s)).
    destruct (stateAfter_type_equals dec t (String "," s) Ht) as [n Hst];
      [discriminate|].
    set (str := t ++ String "=" (String "," s)) in *.
    assert (Hsplit : str = (t ++ "=,") ++ s)
      by (unfold str; rewrite append_assoc_string; reflexivity).
    assert (Hcomma : byteAt str (String.length t + 1) = ","%char).
    { unfold byteAt, str. rewrite get_append_right. reflexivity. }
    assert (Hnext : stateAfter dec str (S n) =
                    Some {| dn := mkDN [mkRDN [atv t ""]]; rdn := mkRDN [];
                            buffer := ""; attribute := newAttribute;
                            escaping := false; unescapedTrailingSpaces := 0;
                            i := String.length t + 1 + 1 |}).
    { rewrite (stateAfter_step dec str n _ _ Hst
                 ltac:(unfold str; rewrite length_append; simpl; lia)
                 (body_comma dec str _ (stateAfter_counter_ok _ _ n _ Hst) eq_refl
                    Hcomma)).
      reflexivity. }
    rewrite Hsplit in *.
    apply (ParseDN_resume_at dec _ s (S n)).
    rewrite Hnext, length_append. simpl. do 2 f_equal. lia.
  - change (t ++ "=") with (t ++ String "=" "").
    destruct (stateAfter_type_equals dec t "" Ht) as [n Hst]; [discriminate|].
    rewrite (stateAfter_finish dec _ n _ Hst)
      by (rewrite length_append; simpl; lia).
    reflexivity.
Qed.

(** The theorem at [CN=,] followed by [DC=net], and at [CN=]. *)
Lemma ParseDN_empty_value_witness :
  ParseDN rejectAll ("CN" ++ "=," ++ "DC=net") =
    Some (Ok (mkDN [mkRDN [atv "CN" ""]; mkRDN [atv "DC" "net"]])) /\
  ParseDN rejectAll ("CN" ++ "=") = Some (Ok (mkDN [])).
Proof.
  split.
  - exact (proj1 (ParseDN_empty_value rejectAll "CN" eq_refl) "DC=net").
  - exact (proj2 (ParseDN_empty_value rejectAll "CN" eq_refl)).
Defined.
